(** * treetree: the particle choreography engine

  A shallow embedding of the formation generator, the gesture classifier,
  the mode state machine and the per-frame animator of the repository,
  together with the properties stated about them.

  Conventions of the embedding.
  - A JavaScript [number] is idealised as a real number: rounding of IEEE
    doubles is not modelled, and neither are [NaN] and the infinities.
  - [Math.random()] is a read from an explicit stream of draws, each of
    them in the half-open unit interval.
  - A JavaScript exception is an explicit [Throw] completion.
  - Operations of three.js that are not part of the repository
    ([Vector3.lerp], [MathUtils.lerp], [MathUtils.randFloat]) are written
    out from their documented formulas; [Object3D.lookAt] and the inverse
    of a world matrix are parameters of the animator. *)

From Stdlib Require Import Reals Lra Lia List ZArith Bool String.
From Stdlib Require Import Permutation.
Import ListNotations.
Open Scope R_scope.

(* ================================================================== *)
(** * JavaScript runtime *)
(* ================================================================== *)

Module Js.

(** ** Completions: a value, or a thrown exception *)

Inductive Error : Set := TypeError.

Inductive Completion (A : Type) : Type :=
| Normal (a : A)
| Throw (e : Error).
Arguments Normal {A} a.
Arguments Throw {A} e.

Definition bind {A B : Type} (c : Completion A) (k : A -> Completion B)
  : Completion B :=
  match c with
  | Normal a => k a
  | Throw e => Throw e
  end.

(** [a[i]] on an array: [undefined] outside of the array. *)
Definition index {A : Type} (a : list A) (i : nat) : option A :=
  nth_error a i.

(** [a[n]] for a number [n] that holds an integer. *)
Definition indexZ {A : Type} (a : list A) (i : Z) : option A :=
  if Z.ltb i 0 then None else nth_error a (Z.to_nat i).

(** Reading a property of a value that may be [undefined]. *)
Definition get {A B : Type} (o : option A) (field : A -> B)
  : Completion B :=
  match o with
  | Some v => Normal (field v)
  | None => Throw TypeError
  end.

(** ** Math *)

Definition hypot (a b : R) : R := sqrt (a * a + b * b).

Definition floor (r : R) : Z := Int_part r.

(** [Math.cbrt]: the real cube root. *)
Definition cbrt (r : R) : R :=
  if Rlt_dec 0 r then exp (ln r / 3)
  else if Rlt_dec r 0 then - exp (ln (- r) / 3)
  else 0.

(** [Math.pow] for a base that is not negative and a positive exponent. *)
Definition pow (b e : R) : R :=
  if Rlt_dec 0 b then Rpower b e else 0.

(** ** The random source *)

Definition Rng : Type := nat -> R.

Definition wf (g : Rng) : Prop := forall n, 0 <= g n < 1.

Definition Rand (A : Type) : Type := Rng -> A * Rng.

Definition ret {A : Type} (a : A) : Rand A := fun g => (a, g).

Definition rbind {A B : Type} (c : Rand A) (k : A -> Rand B) : Rand B :=
  fun g => let (a, g') := c g in k a g'.

(** [Math.random()] *)
Definition random : Rand R :=
  fun g => (g 0%nat, fun n => g (S n)).

Definition const (u : R) : Rng := fun _ => u.

(** The stream that yields the draws of [l] and then [0] for ever. *)
Definition draws (l : list R) : Rng := fun n => nth n l 0.

End Js.

Declare Scope js_scope.
Delimit Scope js_scope with js.
Notation "x <- c ;; k" := (Js.rbind c (fun x => k))
  (at level 61, c at next level, right associativity) : js_scope.
Notation "x <-! c ;; k" := (Js.bind c (fun x => k))
  (at level 61, c at next level, right associativity) : js_scope.

(* ================================================================== *)
(** * three.js *)
(* ================================================================== *)

Module Vector3.

Record t : Set := new { x : R; y : R; z : R }.

(** [this.lerp(v, alpha)] *)
Definition lerp (this v : t) (alpha : R) : t :=
  new (x this + (x v - x this) * alpha)
      (y this + (y v - y this) * alpha)
      (z this + (z v - z this) * alpha).

Definition multiplyScalar (this : t) (s : R) : t :=
  new (x this * s) (y this * s) (z this * s).

Definition length (this : t) : R :=
  sqrt (x this * x this + y this * y this + z this * z this).

Definition distanceTo (this v : t) : R :=
  sqrt ((x this - x v) * (x this - x v)
        + (y this - y v) * (y this - y v)
        + (z this - z v) * (z this - z v)).

(** Distance to the vertical axis. *)
Definition radius (this : t) : R :=
  sqrt (x this * x this + z this * z this).

End Vector3.

Module MathUtils.

(** [lerp(x, y, t)] *)
Definition lerp (a b t : R) : R := (1 - t) * a + t * b.

(** [randFloat(low, high)] *)
Definition randFloat (low high : R) : Js.Rand R :=
  (u <- Js.random ;; Js.ret (low + u * (high - low)))%js.

End MathUtils.

(* ================================================================== *)
(** * constants.ts *)
(* ================================================================== *)

Module COLORS.
Definition MATTE_GREEN : string := "#2D4F38".
Definition METALLIC_GOLD : string := "#D4AF37".
Definition CHRISTMAS_RED : string := "#8A1C1C".
Definition WHITE : string := "#F0F0F0".
End COLORS.

Module CONFIG.
Definition PARTICLE_COUNT : nat := 450.
Definition TREE_HEIGHT : R := 14.
Definition TREE_RADIUS : R := 5.
Definition SCATTER_RADIUS : R := 8.
Definition CAMERA_Z : R := 18.
End CONFIG.

(* ================================================================== *)
(** * types.ts *)
(* ================================================================== *)

Module AppMode.
Inductive t : Set := TREE | SCATTER | ZOOM.
End AppMode.

Inductive HandGesture : Set := UNKNOWN | FIST | OPEN_PALM | PINCH.

Inductive ParticleType : Set := SPHERE | CUBE | CANDY.

(** The identifiers [`p-${i}`] and [`photo-${i}`]. *)
Inductive Id : Set := PId (i : nat) | PhotoId (i : nat).

Record ParticleData : Set := mkParticleData {
  pd_id : Id;
  pd_initialPos : Vector3.t;
  pd_scatterPos : Vector3.t;
  pd_color : string;
  pd_type : ParticleType;
  pd_scale : R
}.

Record PhotoData : Set := mkPhotoData {
  ph_id : Id;
  ph_url : string;
  ph_aspectRatio : R;
  ph_initialPos : Vector3.t;
  ph_scatterPos : Vector3.t
}.

Record Point2 : Set := mkPoint2 { px : R; py : R }.

Record HandState : Set := mkHandState {
  gesture : HandGesture;
  position : Point2;
  isPresent : bool
}.

(** A normalized landmark of the hand landmarker. *)
Record Landmark : Set := mkLandmark { lx : R; ly : R }.

(** The result of [detectForVideo]: [landmarks] may be missing, and holds
  one list of points per detected hand. *)
Record HandLandmarkerResult : Set := mkResult {
  landmarks : option (list (list Landmark))
}.

(* ================================================================== *)
(** * services/geometryService.ts *)
(* ================================================================== *)

Module GeometryService.

Import CONFIG.
Local Open Scope js_scope.

Definition calculateTreePosition (index total : R) : Vector3.t :=
  let y := (index / total) * TREE_HEIGHT - TREE_HEIGHT / 2 in
  let radius := TREE_RADIUS * (1 - (y + TREE_HEIGHT / 2) / TREE_HEIGHT) in
  let angle := index * 0.5 in
  let x := cos angle * radius in
  let z := sin angle * radius in
  Vector3.new x y z.

Definition calculateScatterPosition : Js.Rand Vector3.t :=
  theta <- MathUtils.randFloat 0 (PI * 2) ;;
  phi <- MathUtils.randFloat 0 PI ;;
  u <- MathUtils.randFloat 0 1 ;;
  let r := SCATTER_RADIUS * Js.cbrt u in
  let x := r * sin phi * cos theta in
  let y := r * sin phi * sin theta in
  let z := r * cos phi in
  Js.ret (Vector3.new x y z).

(** The choice of type, colour and scale of one particle. *)
Definition chooseKind (randomVal : R)
  : Js.Rand (ParticleType * string * R) :=
  if Rlt_dec randomVal 0.50 then
    scale <- MathUtils.randFloat 0.15 0.35 ;;
    Js.ret (SPHERE, COLORS.MATTE_GREEN, scale)
  else if Rlt_dec randomVal 0.75 then
    scale <- MathUtils.randFloat 0.2 0.4 ;;
    Js.ret (SPHERE, COLORS.METALLIC_GOLD, scale)
  else if Rlt_dec randomVal 0.90 then
    scale <- MathUtils.randFloat 0.2 0.45 ;;
    Js.ret (CUBE, COLORS.CHRISTMAS_RED, scale)
  else
    scale <- MathUtils.randFloat 0.1 0.2 ;;
    Js.ret (CANDY, COLORS.WHITE, scale).

(** The body of the loop of [generateParticles], for [n] more rounds
    starting at index [i]. *)
Fixpoint generateParticles_from (count n i : nat)
  : Js.Rand (list ParticleData) :=
  match n with
  | O => Js.ret []
  | S n' =>
      randomVal <- Js.random ;;
      k <- chooseKind randomVal ;;
      let '(type, color, scale) := k in
      let initialPos := calculateTreePosition (INR i) (INR count) in
      scatterPos <- calculateScatterPosition ;;
      rest <- generateParticles_from count n' (S i) ;;
      Js.ret (mkParticleData (PId i) initialPos scatterPos color type scale
                :: rest)
  end.

Definition generateParticles (count : nat) : Js.Rand (list ParticleData) :=
  generateParticles_from count count 0.

(** [urls.map((url, i) => ...)], for the elements from index [i] on;
    [len] is [urls.length]. The tree index is the one place of this file
    where the rounding of doubles decides a whole number, so it is explicit
    there: [fl] rounds a real to a double, and both the quotient and the
    product are rounded before [Math.floor] is taken. *)
Fixpoint processPhotos_from (fl : R -> R) (len : nat) (urls : list string)
  (i : nat) : Js.Rand (list PhotoData) :=
  match urls with
  | [] => Js.ret []
  | url :: urls' =>
      let treeIndex :=
        Js.floor (fl (fl (INR i / INR len) * INR PARTICLE_COUNT)) in
      let pos :=
        calculateTreePosition (IZR treeIndex) (INR PARTICLE_COUNT) in
      let pos := Vector3.multiplyScalar pos 1.3 in
      scatterPos <- calculateScatterPosition ;;
      rest <- processPhotos_from fl len urls' (S i) ;;
      Js.ret (mkPhotoData (PhotoId i) url 1 pos scatterPos :: rest)
  end.

Definition processPhotos (fl : R -> R) (urls : list string)
  : Js.Rand (list PhotoData) :=
  processPhotos_from fl (List.length urls) urls 0.

End GeometryService.

(* ================================================================== *)
(** * components/HandTracker.tsx *)
(* ================================================================== *)

Module HandTracker.

Local Open Scope js_scope.

(** The loop [tips.forEach(tip => avgDistToWrist += Math.hypot(...))]. *)
Fixpoint sumDistToWrist (tips : list (option Landmark))
  (wrist : option Landmark) (acc : R) : Js.Completion R :=
  match tips with
  | [] => Js.Normal acc
  | tip :: tips' =>
      tx <-! Js.get tip lx ;;
      wx <-! Js.get wrist lx ;;
      ty <-! Js.get tip ly ;;
      wy <-! Js.get wrist ly ;;
      sumDistToWrist tips' wrist (acc + Js.hypot (tx - wx) (ty - wy))
  end.

(** The body of [detect] once the video and the landmarker are ready;
    the completion carries the state handed to [onHandUpdate]. *)
Definition detect (results : HandLandmarkerResult)
  : Js.Completion HandState :=
  match landmarks results with
  | Some (landmarks :: _) =>
      let thumbTip := Js.index landmarks 4 in
      let indexTip := Js.index landmarks 8 in
      tx <-! Js.get thumbTip lx ;;
      ix <-! Js.get indexTip lx ;;
      ty <-! Js.get thumbTip ly ;;
      iy <-! Js.get indexTip ly ;;
      let pinchDist := Js.hypot (tx - ix) (ty - iy) in
      let wrist := Js.index landmarks 0 in
      let tips := map (fun i => Js.index landmarks i) [8; 12; 16; 20]%nat in
      sum <-! sumDistToWrist tips wrist 0 ;;
      let avgDistToWrist := sum / 4 in
      let gesture :=
        if Rlt_dec pinchDist 0.05 then PINCH
        else if Rlt_dec avgDistToWrist 0.25 then FIST
        else if Rgt_dec avgDistToWrist 0.35 then OPEN_PALM
        else UNKNOWN in
      wx <-! Js.get wrist lx ;;
      let centerX := (wx - 0.5) * -2 in
      wy <-! Js.get wrist ly ;;
      let centerY := (wy - 0.5) * -2 in
      Js.Normal (mkHandState gesture (mkPoint2 centerX centerY) true)
  | _ =>
      Js.Normal (mkHandState UNKNOWN (mkPoint2 0 0) false)
  end.

End HandTracker.

(* ================================================================== *)
(** * The stand-alone scene ([App]) *)
(* ================================================================== *)

Module App.

Local Open Scope js_scope.

Module CONFIG.
Definition count : nat := 1500.
Definition dustCount : nat := 2500.
Definition treeHeight : R := 24.
Definition treeRadius : R := 8.
Definition camera_z : R := 50.
End CONFIG.

(** The values that [STATE.mode] takes. *)
Inductive Mode : Set := TREE | SCATTER | FOCUS.

Definition Mode_eq_dec (a b : Mode) : {a = b} + {a <> b}.
Proof. decide equality. Defined.

(** A mesh or group of the scene. [id] is the identifier that three.js
    gives every object; two references are the same object exactly when
    the identifiers agree. *)
Record Mesh : Set := mkMesh {
  id : nat;
  position : Vector3.t;
  rotation : Vector3.t;
  scale : Vector3.t
}.

Record Hand : Set := mkHand { detected : bool; hand_x : R; hand_y : R }.

Record STATE : Set := mkSTATE {
  mode : Mode;
  focusIndex : Z;
  focusTarget : option nat;
  hand : Hand;
  rotation_x : R;
  rotation_y : R
}.

Definition STATE_init : STATE :=
  mkSTATE TREE (-1) None (mkHand false 0 0) 0 0.

Inductive ParticleKind : Set :=
  BOX | GOLD_BOX | GOLD_SPHERE | RED | CANE | DUST | PHOTO.

Definition ParticleKind_eq_dec (a b : ParticleKind) : {a = b} + {a <> b}.
Proof. decide equality. Defined.

Record Particle : Set := mkParticle {
  mesh : Mesh;
  type : ParticleKind;
  isDust : bool;
  posTree : Vector3.t;
  posScatter : Vector3.t;
  baseScale : R;
  spinSpeed : Vector3.t
}.

(** [this.mesh === focusTargetMesh] *)
Definition isMesh (m : Mesh) (focusTargetMesh : option nat) : bool :=
  match focusTargetMesh with
  | Some i => Nat.eqb (id m) i
  | None => false
  end.

(** [calculatePositions]: the two targets, tree first. *)
Definition calculatePositions (isDust : bool)
  : Js.Rand (Vector3.t * Vector3.t) :=
  let h := CONFIG.treeHeight in
  let halfH := h / 2 in
  t <- Js.random ;;
  let t := Js.pow t 0.8 in
  let y := (t * h) - halfH in
  let rMax := CONFIG.treeRadius * (1.0 - t) in
  let rMax := if Rlt_dec rMax 0.5 then 0.5 else rMax in
  u1 <- Js.random ;;
  let angle := t * 50 * PI + u1 * PI in
  u2 <- Js.random ;;
  let r := rMax * (0.8 + u2 * 0.4) in
  let posTree := Vector3.new (cos angle * r) y (sin angle * r) in
  u3 <- Js.random ;;
  let rScatter := if isDust then 12 + u3 * 20 else 8 + u3 * 12 in
  u4 <- Js.random ;;
  let theta := u4 * PI * 2 in
  u5 <- Js.random ;;
  let phi := acos (2 * u5 - 1) in
  let posScatter :=
    Vector3.new (rScatter * sin phi * cos theta)
                (rScatter * sin phi * sin theta)
                (rScatter * cos phi) in
  Js.ret (posTree, posScatter).

(** [new Particle(mesh, type, isDust)] *)
Definition newParticle (mesh : Mesh) (type : ParticleKind) (isDust : bool)
  : Js.Rand Particle :=
  let baseScale := Vector3.x (scale mesh) in
  let speedMult := if ParticleKind_eq_dec type PHOTO then 0.3 else 2.0 in
  s1 <- Js.random ;;
  s2 <- Js.random ;;
  s3 <- Js.random ;;
  let spinSpeed :=
    Vector3.new ((s1 - 0.5) * speedMult) ((s2 - 0.5) * speedMult)
                ((s3 - 0.5) * speedMult) in
  pos <- calculatePositions isDust ;;
  Js.ret (mkParticle mesh type isDust (fst pos) (snd pos) baseScale
            spinSpeed).

Section Animator.

(** What the animator uses of three.js beyond vectors: the world matrix
    of the main group, the image of a point under the inverse of such a
    matrix, and the Euler angles that [lookAt] leaves in a mesh. *)
Variable Matrix4 : Type.
Variable applyInverse : Matrix4 -> Vector3.t -> Vector3.t.
Variable lookAt : Mesh -> Matrix4 -> Vector3.t -> Vector3.t.

(** The position that [update] steers the particle to. *)
Definition target (this : Particle) (mode : Mode)
  (focusTargetMesh : option nat) (matrixWorld : Matrix4) : Vector3.t :=
  match mode with
  | SCATTER => posScatter this
  | FOCUS =>
      if isMesh (mesh this) focusTargetMesh then
        let desiredWorldPos := Vector3.new 0 2 35 in
        applyInverse matrixWorld desiredWorldPos
      else posScatter this
  | TREE => posTree this
  end.

Definition lerpSpeed (this : Particle) (mode : Mode)
  (focusTargetMesh : option nat) : R :=
  match mode with
  | FOCUS => if isMesh (mesh this) focusTargetMesh then 5.0 else 2.0
  | _ => 2.0
  end.

(** The scale that [update] steers the particle to. *)
Definition targetScale (this : Particle) (mode : Mode)
  (focusTargetMesh : option nat) (elapsedTime : R) : R :=
  let s := baseScale this in
  if isDust this then
    let s :=
      baseScale this
      * (0.8 + 0.4 * sin (elapsedTime * 4 + INR (id (mesh this)))) in
    match mode with TREE => 0 | _ => s end
  else
    match mode, type this with
    | SCATTER, PHOTO => baseScale this * 2.5
    | FOCUS, _ =>
        if isMesh (mesh this) focusTargetMesh then 4.5
        else baseScale this * 0.8
    | _, _ => s
    end.

(** [update(dt, mode, focusTargetMesh, camera, clock, mainGroup)] *)
Definition update (this : Particle) (dt : R) (mode : Mode)
  (focusTargetMesh : option nat) (cameraPosition : Vector3.t)
  (elapsedTime : R) (matrixWorld : Matrix4) : Particle :=
  let m := mesh this in
  (* movement easing *)
  let position' :=
    Vector3.lerp (position m)
      (target this mode focusTargetMesh matrixWorld)
      (lerpSpeed this mode focusTargetMesh * dt) in
  (* rotation logic *)
  let rot := rotation m in
  let rot1 :=
    match mode with
    | SCATTER =>
        Vector3.new (Vector3.x rot + Vector3.x (spinSpeed this) * dt)
                    (Vector3.y rot + Vector3.y (spinSpeed this) * dt)
                    (Vector3.z rot + Vector3.z (spinSpeed this) * dt)
    | TREE =>
        Vector3.new (MathUtils.lerp (Vector3.x rot) 0 dt)
                    (Vector3.y rot + 0.5 * dt)
                    (MathUtils.lerp (Vector3.z rot) 0 dt)
    | FOCUS => rot
    end in
  let m1 := mkMesh (id m) position' rot1 (scale m) in
  let rotation' :=
    match mode with
    | FOCUS =>
        if isMesh m focusTargetMesh then lookAt m1 matrixWorld cameraPosition
        else rot1
    | _ => rot1
    end in
  (* scale logic *)
  let s := targetScale this mode focusTargetMesh elapsedTime in
  let scale' := Vector3.lerp (scale m) (Vector3.new s s s) (4 * dt) in
  mkParticle (mkMesh (id m) position' rotation' scale')
    (type this) (isDust this) (posTree this) (posScatter this)
    (baseScale this) (spinSpeed this).

(** [n] frames with the same [dt], mode, focus target, camera and world
    matrix; the clock reads [elapsedTime k] in frame [k]. *)
Fixpoint frames (n : nat) (this : Particle) (dt : R) (mode : Mode)
  (focusTargetMesh : option nat) (cameraPosition : Vector3.t)
  (elapsedTime : nat -> R) (matrixWorld : Matrix4) : Particle :=
  match n with
  | O => this
  | S n' =>
      update
        (frames n' this dt mode focusTargetMesh cameraPosition elapsedTime
           matrixWorld)
        dt mode focusTargetMesh cameraPosition (elapsedTime n') matrixWorld
  end.

End Animator.

Definition set_hand (S : STATE) (h : Hand) : STATE :=
  mkSTATE (mode S) (focusIndex S) (focusTarget S) h (rotation_x S)
    (rotation_y S).

Definition set_mode (S : STATE) (m : Mode) : STATE :=
  mkSTATE m (focusIndex S) (focusTarget S) (hand S) (rotation_x S)
    (rotation_y S).

Definition set_focusTarget (S : STATE) (f : option nat) : STATE :=
  mkSTATE (mode S) (focusIndex S) f (hand S) (rotation_x S) (rotation_y S).

(** [Math.hypot(thumb.x - index.x, thumb.y - index.y)] *)
Definition pinchDistOf (lm : list Landmark) : Js.Completion R :=
  let thumb := Js.index lm 4 in
  let index := Js.index lm 8 in
  tx <-! Js.get thumb lx ;;
  ix <-! Js.get index lx ;;
  ty <-! Js.get thumb ly ;;
  iy <-! Js.get index ly ;;
  Js.Normal (Js.hypot (tx - ix) (ty - iy)).

(** [avgDist] after the loop over [tips] and the division by four. *)
Definition avgDistOf (lm : list Landmark) : Js.Completion R :=
  let wrist := Js.index lm 0 in
  let tips :=
    [Js.index lm 8; Js.index lm 12; Js.index lm 16; Js.index lm 20] in
  sum <-! HandTracker.sumDistToWrist tips wrist 0 ;;
  Js.Normal (sum / 4).

Definition photosOf (particleSystem : list Particle) : list Particle :=
  filter (fun p => if ParticleKind_eq_dec (type p) PHOTO then true else false)
    particleSystem.

(** [processGestures(result)]: the state it leaves in [STATE], and how it
    completes. The state is the one reached when an exception is thrown. *)
Definition processGestures (result : HandLandmarkerResult)
  (particleSystem : list Particle) (S : STATE)
  : Js.Rand (STATE * Js.Completion unit) :=
  match landmarks result with
  | Some (lm :: _) =>
      let S := set_hand S (mkHand true (hand_x (hand S)) (hand_y (hand S))) in
      match Js.get (Js.index lm 9) lx, Js.get (Js.index lm 9) ly with
      | Js.Normal x9, Js.Normal y9 =>
          let S := set_hand S (mkHand true ((x9 - 0.5) * 2) ((y9 - 0.5) * 2)) in
          match pinchDistOf lm with
          | Js.Throw e => Js.ret (S, Js.Throw e)
          | Js.Normal pinchDist =>
          match avgDistOf lm with
          | Js.Throw e => Js.ret (S, Js.Throw e)
          | Js.Normal avgDist =>
              if Rlt_dec pinchDist 0.05 then
                if Mode_eq_dec (mode S) FOCUS then Js.ret (S, Js.Normal tt)
                else
                  let S := set_mode S FOCUS in
                  let photos := photosOf particleSystem in
                  match photos with
                  | [] => Js.ret (S, Js.Normal tt)
                  | _ :: _ =>
                      u <- Js.random ;;
                      let k := Js.floor (u * INR (List.length photos)) in
                      match Js.get (Js.indexZ photos k) mesh with
                      | Js.Normal m =>
                          Js.ret (set_focusTarget S (Some (id m)),
                                  Js.Normal tt)
                      | Js.Throw e => Js.ret (S, Js.Throw e)
                      end
                  end
              else if Rlt_dec avgDist 0.25 then
                Js.ret (set_focusTarget (set_mode S TREE) None, Js.Normal tt)
              else if Rgt_dec avgDist 0.4 then
                Js.ret (set_focusTarget (set_mode S SCATTER) None,
                        Js.Normal tt)
              else Js.ret (S, Js.Normal tt)
          end
          end
      | Js.Throw e, _ => Js.ret (S, Js.Throw e)
      | _, Js.Throw e => Js.ret (S, Js.Throw e)
      end
  | _ =>
      Js.ret (set_hand S (mkHand false (hand_x (hand S)) (hand_y (hand S))),
              Js.Normal tt)
  end.

(** A run of [processGestures] over the results of successive video
    frames, stopping at the first exception; the modes are those after
    each result. *)
Fixpoint processAll (results : list HandLandmarkerResult)
  (particleSystem : list Particle) (S : STATE)
  : Js.Rand (list Mode * STATE) :=
  match results with
  | [] => Js.ret ([], S)
  | r :: results' =>
      o <- processGestures r particleSystem S ;;
      match snd o with
      | Js.Normal _ =>
          rest <- processAll results' particleSystem (fst o) ;;
          Js.ret (mode (fst o) :: fst rest, snd rest)
      | Js.Throw _ => Js.ret ([], fst o)
      end
  end.

End App.

(* ================================================================== *)
(** * components/TreeScene.tsx *)
(* ================================================================== *)

Module TreeScene.

Local Open Scope js_scope.

(** The transform of one instance of an instanced mesh, or of one photo
    plane. *)
Record Transform : Set := mkTransform {
  position : Vector3.t;
  rotation : Vector3.t;
  scale : Vector3.t
}.

(** The body of the animation loop of [InstancedGroup] for the particle
    at index [i]. *)
Definition instanceFrame (mode : AppMode.t) (particle : ParticleData)
  (i : nat) (elapsedTime delta : R) (tempObj : Transform) : Transform :=
  let targetPos :=
    match mode with
    | AppMode.TREE => pd_initialPos particle
    | _ => pd_scatterPos particle
    end in
  let p := Vector3.lerp (position tempObj) targetPos (delta * 2.5) in
  let r := rotation tempObj in
  let '(p, r) :=
    match mode with
    | AppMode.TREE => (p, Vector3.new 0 0 0)
    | _ =>
        (Vector3.new (Vector3.x p)
           (Vector3.y p + sin (elapsedTime * 0.5 + INR i) * 0.005)
           (Vector3.z p),
         Vector3.new (Vector3.x r + 0.01) (Vector3.y r) (Vector3.z r + 0.01))
    end in
  let s := pd_scale particle in
  mkTransform p r (Vector3.new s s s).

(** The effect of [TreeScene] that picks the photo to zoom into: the new
    value of [focusedPhotoId]. *)
Definition focusEffect (mode : AppMode.t) (photos : list PhotoData)
  (focusedPhotoId : option Id) : Js.Rand (Js.Completion (option Id)) :=
  match mode, photos with
  | AppMode.ZOOM, _ :: _ =>
      match focusedPhotoId with
      | None =>
          u <- Js.random ;;
          let k := Js.floor (u * INR (List.length photos)) in
          Js.ret (i <-! Js.get (Js.indexZ photos k) ph_id ;;
                  Js.Normal (Some i))
      | Some _ => Js.ret (Js.Normal focusedPhotoId)
      end
  | AppMode.ZOOM, [] => Js.ret (Js.Normal focusedPhotoId)
  | _, _ => Js.ret (Js.Normal None)
  end.

End TreeScene.

(* ================================================================== *)
(** * Quantities that the properties speak about *)
(* ================================================================== *)

(** The point [L[i]] of a hand that has it. *)
Definition at_ (lm : list Landmark) (i : nat) : Landmark :=
  nth i lm (mkLandmark 0 0).

(** Distance from thumb tip to index tip. *)
Definition pinchDistance (lm : list Landmark) : R :=
  Js.hypot (lx (at_ lm 4) - lx (at_ lm 8)) (ly (at_ lm 4) - ly (at_ lm 8)).

Definition distToWrist (lm : list Landmark) (i : nat) : R :=
  Js.hypot (lx (at_ lm i) - lx (at_ lm 0)) (ly (at_ lm i) - ly (at_ lm 0)).

(** Mean distance from the four finger tips to the wrist. *)
Definition spread (lm : list Landmark) : R :=
  (distToWrist lm 8 + distToWrist lm 12 + distToWrist lm 16
   + distToWrist lm 20) / 4.

(** The gesture named by thresholds [pinch], [fist] and [open], in
    priority order. *)
Definition classify (pinch fist open : R) (lm : list Landmark)
  : HandGesture :=
  if Rlt_dec (pinchDistance lm) pinch then PINCH
  else if Rlt_dec (spread lm) fist then FIST
  else if Rgt_dec (spread lm) open then OPEN_PALM
  else UNKNOWN.

(** The transition table of the mode state machine, as the specification
    words it: PINCH leads to FOCUS, FIST to TREE, OPEN_PALM to SCATTER, and
    UNKNOWN leaves the mode. *)
Definition spec_transition (g : HandGesture) (m : App.Mode) : App.Mode :=
  match g with
  | PINCH => App.FOCUS
  | FIST => App.TREE
  | OPEN_PALM => App.SCATTER
  | UNKNOWN => m
  end.


(** A hand of 21 points on the horizontal axis of the image: the wrist
    and the joints at [w], the four finger tips at [w + b], the thumb tip
    at [w + b + p]. *)
Definition sampleHand (w b p : R) : list Landmark :=
  map (fun i : nat =>
         if Nat.eqb i 4 then mkLandmark (w + b + p) 0
         else if existsb (Nat.eqb i) [8; 12; 16; 20]%nat
              then mkLandmark (w + b) 0
              else mkLandmark w 0)
      (seq 0 21).

(** The result of the landmarker for one hand. *)
Definition oneHand (lm : list Landmark) : HandLandmarkerResult :=
  mkResult (Some [lm]).

(** An ornament of the stand-alone scene, away from its tree target, and a
    stand-in for the matrix operations of three.js. *)
Definition sampleMesh : App.Mesh :=
  App.mkMesh 7 (Vector3.new 1 0 0) (Vector3.new 0 0 0) (Vector3.new 1 1 1).

Definition sampleParticle : App.Particle :=
  App.mkParticle sampleMesh App.BOX false (Vector3.new 0 0 0)
    (Vector3.new 0 0 0) 1 (Vector3.new 1 1 1).

(** A photo of the stand-alone scene, and a registry of one ornament and
    that photo. *)
Definition samplePhoto : App.Particle :=
  App.mkParticle
    (App.mkMesh 9 (Vector3.new 0 0 0) (Vector3.new 0 0 0)
       (Vector3.new 0.8 0.8 0.8))
    App.PHOTO false (Vector3.new 0 1 0) (Vector3.new 9 0 0) 0.8
    (Vector3.new 0.1 0.1 0.1).

Definition sampleRegistry : list App.Particle := [sampleParticle; samplePhoto].

(** A rounding that loses the last bit downwards: within the relative
    error of doubles, and below the nearest double where that lies above. *)
Definition roundDown (x : R) : R := x * (1 - / 9007199254740992).

Definition idInverse (m : unit) (v : Vector3.t) : Vector3.t := v.

(** A dust particle of the stand-alone scene. *)
Definition sampleDust : App.Particle :=
  App.mkParticle
    (App.mkMesh 3 (Vector3.new 0 0 0) (Vector3.new 0 0 0)
       (Vector3.new 1 1 1))
    App.DUST true (Vector3.new 0 0 0) (Vector3.new 0 0 0) 1
    (Vector3.new 0 0 0).

(** An instanced particle, and the transform of its instance at distance 1
    from the tree target. *)
Definition sampleData : ParticleData :=
  mkParticleData (PId 0) (Vector3.new 1 2 3) (Vector3.new 4 5 6)
    COLORS.WHITE CANDY 0.15.

Definition sampleTransform : TreeScene.Transform :=
  TreeScene.mkTransform (Vector3.new 1 2 4) (Vector3.new 0 0 0)
    (Vector3.new 1 1 1).

(** Two photos of the cloud. *)
Definition samplePhotos : list PhotoData :=
  [mkPhotoData (PhotoId 0) "a" 1 (Vector3.new 0 0 0) (Vector3.new 1 1 1);
   mkPhotoData (PhotoId 1) "b" 1 (Vector3.new 0 1 0) (Vector3.new 2 2 2)].

Definition idLookAt (m : App.Mesh) (w : unit) (v : Vector3.t) : Vector3.t :=
  v.

(* ================================================================== *)
(** * components/TreeScene.tsx: the other components *)
(* ================================================================== *)

Module Ornaments.

Definition isType (t : ParticleType) (p : ParticleData) : bool :=
  match pd_type p, t with
  | SPHERE, SPHERE | CUBE, CUBE | CANDY, CANDY => true
  | _, _ => false
  end.

Definition greenSpheres (particles : list ParticleData) : list ParticleData :=
  filter (fun p => isType SPHERE p
                   && String.eqb (pd_color p) COLORS.MATTE_GREEN) particles.

Definition goldSpheres (particles : list ParticleData) : list ParticleData :=
  filter (fun p => isType SPHERE p
                   && String.eqb (pd_color p) COLORS.METALLIC_GOLD) particles.

Definition redCubes (particles : list ParticleData) : list ParticleData :=
  filter (isType CUBE) particles.

Definition candies (particles : list ParticleData) : list ParticleData :=
  filter (isType CANDY) particles.

End Ornaments.

Module PhotoPlane.

Section Frame.

(** The Euler angles that [lookAt] leaves in a mesh at a given position
    for a given point to face. *)
Variable lookAt : Vector3.t -> Vector3.t -> Vector3.t.

Definition targetPos (photo : PhotoData) (mode : AppMode.t)
  (isFocused : bool) : Vector3.t :=
  match mode with
  | AppMode.ZOOM =>
      if isFocused then Vector3.new 0 0 10 else ph_scatterPos photo
  | AppMode.TREE => ph_initialPos photo
  | AppMode.SCATTER => ph_scatterPos photo
  end.

Definition targetScale (mode : AppMode.t) (isFocused : bool) : R :=
  match mode with
  | AppMode.ZOOM => if isFocused then 6 else 2
  | AppMode.TREE => 1.5
  | AppMode.SCATTER => 2
  end.

(** The body of the animation loop of [PhotoPlane]. *)
Definition frame (photo : PhotoData) (mode : AppMode.t) (isFocused : bool)
  (cameraPosition : Vector3.t) (delta : R) (mesh : TreeScene.Transform)
  : TreeScene.Transform :=
  let position' :=
    Vector3.lerp (TreeScene.position mesh) (targetPos photo mode isFocused)
      (delta * 3) in
  let currentScale := Vector3.x (TreeScene.scale mesh) in
  let nextScale :=
    MathUtils.lerp currentScale (targetScale mode isFocused) (delta * 3) in
  TreeScene.mkTransform position' (lookAt position' cameraPosition)
    (Vector3.new nextScale nextScale nextScale).

Fixpoint frames (n : nat) (photo : PhotoData) (mode : AppMode.t)
  (isFocused : bool) (cameraPosition : Vector3.t) (delta : R)
  (mesh : TreeScene.Transform) : TreeScene.Transform :=
  match n with
  | O => mesh
  | S n' =>
      frame photo mode isFocused cameraPosition delta
        (frames n' photo mode isFocused cameraPosition delta mesh)
  end.

End Frame.

End PhotoPlane.

Module CameraController.

Definition isPinch (g : HandGesture) : bool :=
  match g with PINCH => true | _ => false end.

(** The position that the animation loop of [CameraController] leaves in
    the camera; the orientation is that of [lookAt(0, 0, 0)]. *)
Definition frame (handState : HandState) (mode : AppMode.t)
  (elapsedTime delta : R) (cameraPosition : Vector3.t) : Vector3.t :=
  match mode with
  | AppMode.SCATTER =>
      if isPresent handState && negb (isPinch (gesture handState)) then
        let targetX := px (position handState) * 10 in
        let targetY := py (position handState) * 5 in
        Vector3.new (MathUtils.lerp (Vector3.x cameraPosition) targetX delta)
          (MathUtils.lerp (Vector3.y cameraPosition) targetY delta)
          (Vector3.z cameraPosition)
      else cameraPosition
  | AppMode.TREE =>
      let angle := elapsedTime * 0.2 in
      Vector3.new (sin angle * 20) (Vector3.y cameraPosition)
        (cos angle * 20)
  | AppMode.ZOOM => cameraPosition
  end.

End CameraController.

(* ================================================================== *)
(** * The stand-alone scene: registry and frame loop *)
(* ================================================================== *)

Module Scene.

Local Open Scope js_scope.

(** The kind that [createParticles] gives an ornament for its draw. *)
Definition ornamentKind (rand : R) : App.ParticleKind :=
  if Rlt_dec rand 0.40 then App.BOX
  else if Rlt_dec rand 0.70 then App.GOLD_BOX
  else if Rlt_dec rand 0.92 then App.GOLD_SPHERE
  else if Rlt_dec rand 0.97 then App.RED
  else App.CANE.

(** The loop of [createParticles] for [n] more ornaments; [nextId] is the
    identifier that three.js gives the next object. *)
Fixpoint createParticles_from (n nextId : nat)
  : Js.Rand (list App.Particle) :=
  match n with
  | O => Js.ret []
  | S n' =>
      rand <- Js.random ;;
      let type := ornamentKind rand in
      u <- Js.random ;;
      let s := 0.4 + u * 0.5 in
      r1 <- Js.random ;;
      r2 <- Js.random ;;
      r3 <- Js.random ;;
      let mesh :=
        App.mkMesh nextId (Vector3.new 0 0 0)
          (Vector3.new (r1 * 6) (r2 * 6) (r3 * 6)) (Vector3.new s s s) in
      p <- App.newParticle mesh type false ;;
      rest <- createParticles_from n' (S nextId) ;;
      Js.ret (p :: rest)
  end.

(** [createParticles]: the ornaments pushed, and the next identifier
    after the star and its light. How many objects three.js makes for the
    two of them (the light brings a shadow camera of its own) is not in the
    repository: [starObjects] is that number. *)
Definition createParticles (starObjects nextId : nat)
  : Js.Rand (list App.Particle * nat) :=
  ps <- createParticles_from App.CONFIG.count nextId ;;
  Js.ret (ps, (nextId + App.CONFIG.count + starObjects)%nat).

Fixpoint createDust_from (n nextId : nat) : Js.Rand (list App.Particle) :=
  match n with
  | O => Js.ret []
  | S n' =>
      u <- Js.random ;;
      let s := 0.5 + u in
      let mesh :=
        App.mkMesh nextId (Vector3.new 0 0 0) (Vector3.new 0 0 0)
          (Vector3.new s s s) in
      p <- App.newParticle mesh App.DUST true ;;
      rest <- createDust_from n' (S nextId) ;;
      Js.ret (p :: rest)
  end.

Definition createDust (nextId : nat) : Js.Rand (list App.Particle * nat) :=
  ps <- createDust_from App.CONFIG.dustCount nextId ;;
  Js.ret (ps, (nextId + App.CONFIG.dustCount)%nat).

(** [addPhotoToScene(texture)]: the particle pushed. The frame and the
    photo take the first two identifiers, the group that becomes the mesh
    of the particle the third. *)
Definition addPhotoToScene (nextId : nat) : Js.Rand (App.Particle * nat) :=
  let s := 0.8 in
  let group :=
    App.mkMesh (nextId + 2) (Vector3.new 0 0 0) (Vector3.new 0 0 0)
      (Vector3.new s s s) in
  p <- App.newParticle group App.PHOTO false ;;
  Js.ret (p, (nextId + 3)%nat).

(** [particleSystem] after [createParticles(); createDust();
    createDefaultPhotos()]. *)
Definition init (starObjects nextId : nat)
  : Js.Rand (list App.Particle * nat) :=
  a <- createParticles starObjects nextId ;;
  b <- createDust (snd a) ;;
  c <- addPhotoToScene (snd b) ;;
  Js.ret (fst a ++ fst b ++ [fst c], snd c).

(** The rotation logic of [animate]. *)
Definition animateRotation (dt : R) (S : App.STATE) : App.STATE :=
  let rx := App.rotation_x S in
  let ry := App.rotation_y S in
  let set (x y : R) :=
    App.mkSTATE (App.mode S) (App.focusIndex S) (App.focusTarget S)
      (App.hand S) x y in
  match App.mode S, App.detected (App.hand S) with
  | App.SCATTER, true =>
      let targetRotY := App.hand_x (App.hand S) * PI * 0.9 in
      let targetRotX := App.hand_y (App.hand S) * PI * 0.25 in
      let ry' := ry + (targetRotY - ry) * 3.0 * dt in
      let rx' := rx + (targetRotX - rx) * 3.0 * dt in
      set rx' ry'
  | App.TREE, _ =>
      let ry' := ry + 0.3 * dt in
      let rx' := rx + (0 - rx) * 2.0 * dt in
      set rx' ry'
  | _, _ => set rx (ry + 0.1 * dt)
  end.

Section Animate.

Variable Matrix4 : Type.
Variable applyInverse : Matrix4 -> Vector3.t -> Vector3.t.
Variable lookAt : App.Mesh -> Matrix4 -> Vector3.t -> Vector3.t.

(** One round of [animate]: [dt] and [elapsedTime] are what the clock
    reads, [matrixWorld] the world matrix that the last render left in the
    main group. *)
Definition animate (dt elapsedTime : R) (cameraPosition : Vector3.t)
  (matrixWorld : Matrix4) (S : App.STATE)
  (particleSystem : list App.Particle) : App.STATE * list App.Particle :=
  let S' := animateRotation dt S in
  (S',
   map (fun p =>
          App.update Matrix4 applyInverse lookAt p dt (App.mode S')
            (App.focusTarget S') cameraPosition elapsedTime matrixWorld)
       particleSystem).

End Animate.

End Scene.

Module InstancedGroup.

(** [n] frames of the animation loop for the particle at index [i], with
    the same [delta]; the clock reads [elapsedTime k] in frame [k]. *)
Fixpoint frames (n : nat) (mode : AppMode.t) (particle : ParticleData)
  (i : nat) (elapsedTime : nat -> R) (delta : R)
  (tempObj : TreeScene.Transform) : TreeScene.Transform :=
  match n with
  | O => tempObj
  | S n' =>
      TreeScene.instanceFrame mode particle i (elapsedTime n') delta
        (frames n' mode particle i elapsedTime delta tempObj)
  end.

End InstancedGroup.

Module PhotoCloud.

(** [focusedPhotoId === photo.id] *)
Definition isFocused (focusedPhotoId : option Id) (photo : PhotoData)
  : bool :=
  match focusedPhotoId, ph_id photo with
  | Some (PId a), PId b => Nat.eqb a b
  | Some (PhotoId a), PhotoId b => Nat.eqb a b
  | _, _ => false
  end.

End PhotoCloud.

(** ** Predicates of the added properties *)

(** An ornament as [generateParticles] makes them: one of four pairs of
    type and colour, with the scale in the range of the pair. *)
Definition ornamentOk (p : ParticleData) : Prop :=
  (pd_type p = SPHERE /\ pd_color p = COLORS.MATTE_GREEN
   /\ 0.15 <= pd_scale p < 0.35)
  \/ (pd_type p = SPHERE /\ pd_color p = COLORS.METALLIC_GOLD
      /\ 0.2 <= pd_scale p < 0.4)
  \/ (pd_type p = CUBE /\ pd_color p = COLORS.CHRISTMAS_RED
      /\ 0.2 <= pd_scale p < 0.45)
  \/ (pd_type p = CANDY /\ pd_color p = COLORS.WHITE
      /\ 0.1 <= pd_scale p < 0.2).

(** A state of the mode machine in which a focus target is held only in
    FOCUS mode and is the mesh of a PHOTO particle of the registry. *)
Definition focusOk (ps : list App.Particle) (S : App.STATE) : Prop :=
  match App.focusTarget S with
  | None => True
  | Some i =>
      App.mode S = App.FOCUS
      /\ exists p, In p ps /\ App.type p = App.PHOTO
                   /\ App.id (App.mesh p) = i
  end.

(** A particle of the stand-alone scene as the registry makes them. *)
Definition particleOk (p : App.Particle) : Prop :=
  (App.isDust p = true <-> App.type p = App.DUST)
  /\ App.baseScale p = Vector3.x (App.scale (App.mesh p))
  /\ App.scale (App.mesh p)
     = Vector3.new (App.baseScale p) (App.baseScale p) (App.baseScale p)
  /\ match App.type p with
     | App.PHOTO => App.baseScale p = 0.8
     | App.DUST => 0.5 <= App.baseScale p < 1.5
     | _ => 0.4 <= App.baseScale p < 0.9
     end.

(** The landmarks of [lm] moved by [(dx, dy)]. *)
Definition shift (dx dy : R) (lm : list Landmark) : list Landmark :=
  map (fun l => mkLandmark (lx l + dx) (ly l + dy)) lm.

(** All landmarks in the unit square of the image. *)
Definition inImage (lm : list Landmark) : Prop :=
  Forall (fun l => 0 <= lx l <= 1 /\ 0 <= ly l <= 1) lm.

(* ================================================================== *)
(** * Properties *)
(* ================================================================== *)

(** ** Arithmetic of the runtime *)

Lemma hypot_nonneg (a b : R) : 0 <= Js.hypot a b.
Proof. unfold Js.hypot. apply sqrt_pos. Qed.

Lemma hypot_axis (a : R) : Js.hypot a 0 = Rabs a.
Proof.
  unfold Js.hypot.
  replace (a * a + 0 * 0) with (Rsqr a) by (unfold Rsqr; ring).
  apply sqrt_Rsqr_abs.
Qed.

Lemma cbrt_0 : Js.cbrt 0 = 0.
Proof.
  unfold Js.cbrt.
  destruct (Rlt_dec 0 0) as [H | _]; [lra |].
  destruct (Rlt_dec 0 0) as [H | _]; [lra | reflexivity].
Qed.

Lemma cbrt_pos (r : R) : 0 < r -> Js.cbrt r = exp (ln r / 3).
Proof.
  intros H. unfold Js.cbrt.
  destruct (Rlt_dec 0 r) as [_ | N]; [reflexivity | contradiction].
Qed.

Lemma cbrt_cube (r : R) : 0 <= r -> Js.cbrt r * Js.cbrt r * Js.cbrt r = r.
Proof.
  intros [H | <-].
  - rewrite (cbrt_pos r H), <- !exp_plus.
    replace (ln r / 3 + ln r / 3 + ln r / 3) with (ln r) by field.
    now apply exp_ln.
  - rewrite cbrt_0. ring.
Qed.

Lemma cbrt_unit (u : R) : 0 <= u < 1 -> 0 <= Js.cbrt u < 1.
Proof.
  intros [[H | <-] H1].
  - rewrite (cbrt_pos u H). split.
    + left. apply exp_pos.
    + rewrite <- exp_0. apply exp_increasing.
      assert (ln u < 0) by (rewrite <- ln_1; now apply ln_increasing).
      lra.
  - rewrite cbrt_0. lra.
Qed.

Lemma pow_unit (u e : R) : 0 < e -> 0 <= u < 1 -> 0 <= Js.pow u e < 1.
Proof.
  intros He [H0 H1]. unfold Js.pow.
  destruct (Rlt_dec 0 u) as [H | _]; [| lra].
  unfold Rpower. split.
  - left. apply exp_pos.
  - rewrite <- exp_0. apply exp_increasing.
    assert (ln u < 0) by (rewrite <- ln_1; now apply ln_increasing).
    nra.
Qed.

(** ** The random source *)

Lemma wf_tail (g : Js.Rng) (k : nat) :
  Js.wf g -> Js.wf (fun n => g (k + n)%nat).
Proof. intros H n. apply H. Qed.

Lemma wf_next (g : Js.Rng) : Js.wf g -> Js.wf (snd (Js.random g)).
Proof. intros H n. apply H. Qed.

Lemma wf_const (u : R) : 0 <= u < 1 -> Js.wf (Js.const u).
Proof. intros H n. exact H. Qed.

Lemma wf_draws (l : list R) :
  Forall (fun u => 0 <= u < 1) l -> Js.wf (Js.draws l).
Proof.
  intros H n. unfold Js.draws. revert n.
  induction H as [| u l Hu _ IH]; intros [| n]; simpl; try lra.
  apply IH.
Qed.

(** ** Plane and space geometry *)

Lemma circle_radius (a r : R) :
  sqrt (cos a * r * (cos a * r) + sin a * r * (sin a * r)) = Rabs r.
Proof.
  replace (cos a * r * (cos a * r) + sin a * r * (sin a * r))
    with (Rsqr r * (Rsqr (sin a) + Rsqr (cos a))) by (unfold Rsqr; ring).
  rewrite sin2_cos2, Rmult_1_r. apply sqrt_Rsqr_abs.
Qed.

Lemma sphere_radius (r phi theta : R) :
  sqrt (r * sin phi * cos theta * (r * sin phi * cos theta)
        + r * sin phi * sin theta * (r * sin phi * sin theta)
        + r * cos phi * (r * cos phi)) = Rabs r.
Proof.
  replace (r * sin phi * cos theta * (r * sin phi * cos theta)
           + r * sin phi * sin theta * (r * sin phi * sin theta)
           + r * cos phi * (r * cos phi))
    with (Rsqr r * (Rsqr (sin phi) * (Rsqr (sin theta) + Rsqr (cos theta))
                    + Rsqr (cos phi))) by (unfold Rsqr; ring).
  rewrite sin2_cos2, Rmult_1_r, sin2_cos2, Rmult_1_r.
  apply sqrt_Rsqr_abs.
Qed.

(** ** The tree formation *)

Lemma tree_y (index total : R) :
  Vector3.y (GeometryService.calculateTreePosition index total)
  = (index / total) * CONFIG.TREE_HEIGHT - CONFIG.TREE_HEIGHT / 2.
Proof. reflexivity. Qed.

Lemma tree_radius (index total : R) :
  0 <= index < total ->
  Vector3.radius (GeometryService.calculateTreePosition index total)
  = CONFIG.TREE_RADIUS * (1 - index / total).
Proof.
  intros [H0 H1].
  unfold Vector3.radius, GeometryService.calculateTreePosition. simpl.
  rewrite circle_radius.
  unfold CONFIG.TREE_HEIGHT, CONFIG.TREE_RADIUS.
  replace (5 * (1 - (index / total * 14 - 14 / 2 + 14 / 2) / 14))
    with (5 * (1 - index / total)) by (field; lra).
  apply Rabs_right.
  assert (index / total < 1).
  { apply (Rmult_lt_reg_r total); [lra |].
    unfold Rdiv. rewrite Rmult_assoc, Rinv_l; lra. }
  lra.
Qed.

Lemma div_lt_div (a b n : R) : 0 < n -> a < b -> a / n < b / n.
Proof.
  intros Hn Hab. unfold Rdiv.
  apply Rmult_lt_compat_r; [now apply Rinv_0_lt_compat | exact Hab].
Qed.

Lemma tree_monotone (i j total : R) :
  0 <= i -> i < j -> j < total ->
  Vector3.y (GeometryService.calculateTreePosition i total)
  < Vector3.y (GeometryService.calculateTreePosition j total)
  /\ Vector3.radius (GeometryService.calculateTreePosition j total)
     < Vector3.radius (GeometryService.calculateTreePosition i total).
Proof.
  intros Hi Hij Hj.
  rewrite !tree_y, !tree_radius by lra.
  unfold CONFIG.TREE_HEIGHT, CONFIG.TREE_RADIUS.
  assert (i / total < j / total) by (apply div_lt_div; lra).
  lra.
Qed.

Lemma randomized_tree (isDust : bool) (g : Js.Rng) :
  Js.wf g ->
  let posTree := fst (fst (App.calculatePositions isDust g)) in
  let t := Js.pow (g 0%nat) 0.8 in
  let rMax := Rmax (App.CONFIG.treeRadius * (1 - t)) 0.5 in
  0 <= t < 1
  /\ Vector3.y posTree
     = t * App.CONFIG.treeHeight - App.CONFIG.treeHeight / 2
  /\ Vector3.radius posTree = rMax * (0.8 + g 2%nat * 0.4)
  /\ 0.4 <= Vector3.radius posTree.
Proof.
  intros Hg posTree t rMax.
  assert (Ht : 0 <= t < 1) by (apply pow_unit; [lra | apply Hg]).
  assert (Hr : 0.5 <= rMax) by apply Rmax_r.
  assert (Hu := Hg 2%nat).
  assert (E : Vector3.radius posTree = rMax * (0.8 + g 2%nat * 0.4)).
  { unfold posTree, App.calculatePositions, Vector3.radius, Js.rbind,
      Js.random, Js.ret. simpl. fold t.
    rewrite circle_radius.
    replace (if Rlt_dec (App.CONFIG.treeRadius * (1.0 - t)) 0.5
             then 0.5 else App.CONFIG.treeRadius * (1.0 - t)) with rMax.
    - apply Rabs_right. nra.
    - unfold rMax, Rmax.
      destruct (Rlt_dec (App.CONFIG.treeRadius * (1.0 - t)) 0.5) as [L | L];
        destruct (Rle_dec (App.CONFIG.treeRadius * (1 - t)) 0.5) as [M | M];
        try reflexivity; lra. }
  repeat split; try apply Ht.
  - exact E.
  - rewrite E. nra.
Qed.

(** C3, as amended. The index-based tree position has
    [y = (index/total)*height - height/2] and horizontal radius
    [radius*(1 - index/total)], which is positive for [0 <= index < total]
    without any clamp; [y] grows and the radius shrinks strictly with the
    index, for every total and so for the ten particles of the scenario
    (height 14, radius 5). The floor, [0.5], belongs to the randomized
    variant only: there [t] is a power-biased draw in [[0,1)],
    [y = t*height - height/2], and the horizontal radius is
    [max(radius*(1 - t), 0.5)] times a jitter factor in [[0.8, 1.2)], hence
    at least [0.4]. *)
Theorem C3_tree_formation :
  (forall index total : R, 0 <= index < total ->
     let p := GeometryService.calculateTreePosition index total in
     Vector3.y p
     = (index / total) * CONFIG.TREE_HEIGHT - CONFIG.TREE_HEIGHT / 2
     /\ Vector3.radius p = CONFIG.TREE_RADIUS * (1 - index / total)
     /\ 0 < Vector3.radius p)
  /\ (forall i j total : nat, (i < j < total)%nat ->
        let p := GeometryService.calculateTreePosition (INR i) (INR total) in
        let q := GeometryService.calculateTreePosition (INR j) (INR total) in
        Vector3.y p < Vector3.y q /\ Vector3.radius q < Vector3.radius p)
  /\ (forall i j : nat, (i < j < 10)%nat ->
        let p := GeometryService.calculateTreePosition (INR i) 10 in
        let q := GeometryService.calculateTreePosition (INR j) 10 in
        Vector3.y p = INR i * 1.4 - 7
        /\ Vector3.radius p = 5 - INR i * 0.5
        /\ Vector3.y p < Vector3.y q /\ Vector3.radius q < Vector3.radius p)
  /\ (forall (isDust : bool) (g : Js.Rng), Js.wf g ->
        let posTree := fst (fst (App.calculatePositions isDust g)) in
        let t := Js.pow (g 0%nat) 0.8 in
        let rMax := Rmax (App.CONFIG.treeRadius * (1 - t)) 0.5 in
        0 <= t < 1
        /\ Vector3.y posTree
           = t * App.CONFIG.treeHeight - App.CONFIG.treeHeight / 2
        /\ Vector3.radius posTree = rMax * (0.8 + g 2%nat * 0.4)
        /\ 0.4 <= Vector3.radius posTree).
Proof.
  split; [| split; [| split]].
  - intros index total H p. unfold p.
    rewrite tree_y, tree_radius by exact H.
    repeat split.
    assert (index / total < 1).
    { apply (Rmult_lt_reg_r total); [lra |].
      unfold Rdiv. rewrite Rmult_assoc, Rinv_l; lra. }
    unfold CONFIG.TREE_RADIUS. lra.
  - intros i j total [Hij Hj] p q.
    apply tree_monotone.
    + apply pos_INR.
    + now apply lt_INR.
    + now apply lt_INR.
  - intros i j [Hij Hj] p q.
    assert (Hi : 0 <= INR i) by apply pos_INR.
    assert (Hij' : INR i < INR j) by now apply lt_INR.
    assert (Hj' : INR j < 10).
    { replace 10 with (INR 10) by (simpl; lra). now apply lt_INR. }
    unfold p, q.
    rewrite !tree_y, !tree_radius by lra.
    unfold CONFIG.TREE_HEIGHT, CONFIG.TREE_RADIUS. lra.
  - intros isDust g Hg. now apply randomized_tree.
Qed.

Lemma C3_tree_formation_witness :
  Vector3.y (GeometryService.calculateTreePosition (INR 3) 10)
  < Vector3.y (GeometryService.calculateTreePosition (INR 4) 10)
  /\ Vector3.radius (GeometryService.calculateTreePosition (INR 4) 10)
     < Vector3.radius (GeometryService.calculateTreePosition (INR 3) 10).
Proof.
  destruct C3_tree_formation as (_ & _ & H & _).
  destruct (H 3%nat 4%nat) as (_ & _ & Hy & Hr); [lia |].
  split; [exact Hy | exact Hr].
Defined.

(** C3, as stated, fails: the index-based tree position is not clamped to
    any positive floor. Under a floor [f] the last of [total] particles,
    whose radius is [radius/total], would have to sit at radius [f] once
    [total > radius/f]; with the floor [0.5] of the randomized variant this
    already happens for index 449 of 450, at radius [1/90]. *)
Lemma C3_no_radius_floor :
  ~ exists floor : R, 0 < floor /\
      forall index total : nat, (index < total)%nat ->
        Vector3.radius
          (GeometryService.calculateTreePosition (INR index) (INR total))
        = Rmax (CONFIG.TREE_RADIUS * (1 - INR index / INR total)) floor.
Proof.
  intros (f & Hf & H).
  destruct (archimed_cor1 (f / 5)) as (N & HN & HN0); [lra |].
  destruct N as [| n]; [lia |].
  specialize (H n (S n) (Nat.lt_succ_diag_r n)).
  rewrite tree_radius in H.
  2:{ split; [apply pos_INR | apply lt_INR; lia]. }
  assert (Hpos : 0 < INR (S n)) by (apply lt_0_INR; lia).
  assert (E : CONFIG.TREE_RADIUS * (1 - INR n / INR (S n)) = 5 * / INR (S n)).
  { unfold CONFIG.TREE_RADIUS. rewrite S_INR in *. field. lra. }
  rewrite E in H.
  assert (f <= Rmax (5 * / INR (S n)) f) by apply Rmax_r.
  lra.
Qed.

(** ** The scatter formation of [geometryService] *)

Lemma scatter_position (g : Js.Rng) :
  GeometryService.calculateScatterPosition g
  = (let theta := 0 + g 0%nat * (PI * 2 - 0) in
     let phi := 0 + g 1%nat * (PI - 0) in
     let r := CONFIG.SCATTER_RADIUS * Js.cbrt (0 + g 2%nat * (1 - 0)) in
     Vector3.new (r * sin phi * cos theta) (r * sin phi * sin theta)
       (r * cos phi),
     fun n => g (S (S (S n)))).
Proof. reflexivity. Qed.

Lemma scatter_length (g : Js.Rng) :
  Js.wf g ->
  Vector3.length (fst (GeometryService.calculateScatterPosition g))
  = CONFIG.SCATTER_RADIUS * Js.cbrt (g 2%nat).
Proof.
  intros Hg. rewrite scatter_position. unfold Vector3.length. simpl.
  rewrite sphere_radius.
  replace (0 + g 2%nat * (1 - 0)) with (g 2%nat) by ring.
  apply Rabs_right.
  assert (H := cbrt_unit _ (Hg 2%nat)).
  unfold CONFIG.SCATTER_RADIUS. lra.
Qed.

Lemma scatter_spec (g : Js.Rng) :
  Js.wf g ->
  Vector3.length (fst (GeometryService.calculateScatterPosition g))
  <= CONFIG.SCATTER_RADIUS
  /\ Js.wf (snd (GeometryService.calculateScatterPosition g)).
Proof.
  intros Hg. split.
  - rewrite (scatter_length g Hg).
    assert (H := cbrt_unit _ (Hg 2%nat)).
    unfold CONFIG.SCATTER_RADIUS. lra.
  - rewrite scatter_position. simpl. intros n. apply Hg.
Qed.

Lemma chooseKind_wf (randomVal : R) (g : Js.Rng) :
  Js.wf g -> Js.wf (snd (GeometryService.chooseKind randomVal g)).
Proof.
  intros Hg. unfold GeometryService.chooseKind.
  repeat match goal with
         | |- context [Rlt_dec ?a ?b] => destruct (Rlt_dec a b)
         end; simpl; intros k; apply Hg.
Qed.

#[local] Opaque GeometryService.calculateScatterPosition
  GeometryService.chooseKind.

Lemma generateParticles_from_spec (count n : nat) :
  forall (i : nat) (g : Js.Rng), Js.wf g ->
    Forall (fun p => Vector3.length (pd_scatterPos p)
                        <= CONFIG.SCATTER_RADIUS)
      (fst (GeometryService.generateParticles_from count n i g))
    /\ List.length (fst (GeometryService.generateParticles_from count n i g))
       = n
    /\ Js.wf (snd (GeometryService.generateParticles_from count n i g)).
Proof.
  induction n as [| n IH]; intros i g Hg.
  - simpl. split; [constructor | split; [reflexivity | exact Hg]].
  - simpl. unfold Js.rbind. simpl.
    assert (H1 := chooseKind_wf (g 0%nat) (fun n => g (S n)) (wf_next g Hg)).
    destruct (GeometryService.chooseKind (g 0%nat) (fun n => g (S n)))
      as [[[ty col] sc] g1].
    simpl in H1.
    destruct (scatter_spec g1 H1) as [H2 H3].
    destruct (GeometryService.calculateScatterPosition g1) as [sp g2].
    simpl in H2, H3.
    destruct (IH (S i) g2 H3) as (H4 & H5 & H6).
    destruct (GeometryService.generateParticles_from count n (S i) g2)
      as [rest g3].
    simpl in *. split; [| split].
    + constructor; [exact H2 | exact H4].
    + congruence.
    + exact H6.
Qed.

Lemma processPhotos_from_spec (fl : R -> R) (len : nat)
  (urls : list string) :
  forall (i : nat) (g : Js.Rng), Js.wf g ->
    Forall (fun p => Vector3.length (ph_scatterPos p)
                        <= CONFIG.SCATTER_RADIUS)
      (fst (GeometryService.processPhotos_from fl len urls i g))
    /\ List.length (fst (GeometryService.processPhotos_from fl len urls i g))
       = List.length urls
    /\ Js.wf (snd (GeometryService.processPhotos_from fl len urls i g)).
Proof.
  induction urls as [| url urls IH]; intros i g Hg.
  - simpl. split; [constructor | split; [reflexivity | exact Hg]].
  - simpl. unfold Js.rbind.
    destruct (scatter_spec g Hg) as [H2 H3].
    destruct (GeometryService.calculateScatterPosition g) as [sp g2].
    simpl in H2, H3.
    destruct (IH (S i) g2 H3) as (H4 & H5 & H6).
    destruct (GeometryService.processPhotos_from fl len urls (S i) g2)
      as [rest g3].
    simpl in *. split; [| split].
    + constructor; [exact H2 | exact H4].
    + congruence.
    + exact H6.
Qed.

#[local] Transparent GeometryService.calculateScatterPosition
  GeometryService.chooseKind.

(** C10. Every point that [calculateScatterPosition] returns has norm
    [SCATTER_RADIUS * cbrt(u)] for its third draw [u], which is at most
    [SCATTER_RADIUS = 8]; so the [scatterPos] of each of the [count]
    particles of [generateParticles] and of each photo of [processPhotos]
    lies in that sphere. Both records are only read by the animation loops,
    which return transforms and no particle data. *)
Theorem C10_scatter_within_radius :
  CONFIG.SCATTER_RADIUS = 8
  /\ (forall g : Js.Rng, Js.wf g ->
        Vector3.length (fst (GeometryService.calculateScatterPosition g))
        <= CONFIG.SCATTER_RADIUS)
  /\ (forall (count : nat) (g : Js.Rng), Js.wf g ->
        let particles := fst (GeometryService.generateParticles count g) in
        List.length particles = count
        /\ Forall (fun p => Vector3.length (pd_scatterPos p)
                            <= CONFIG.SCATTER_RADIUS) particles)
  /\ (forall (fl : R -> R) (urls : list string) (g : Js.Rng), Js.wf g ->
        let photos := fst (GeometryService.processPhotos fl urls g) in
        List.length photos = List.length urls
        /\ Forall (fun p => Vector3.length (ph_scatterPos p)
                            <= CONFIG.SCATTER_RADIUS) photos).
Proof.
  split; [reflexivity |]. split; [| split].
  - intros g Hg. apply (scatter_spec g Hg).
  - intros count g Hg particles.
    destruct (generateParticles_from_spec count count 0 g Hg) as (H & L & _).
    split; [exact L | exact H].
  - intros fl urls g Hg photos.
    destruct (processPhotos_from_spec fl (List.length urls) urls 0 g Hg)
      as (H & L & _).
    split; [exact L | exact H].
Qed.

Lemma C10_scatter_within_radius_witness :
  Vector3.length
    (fst (GeometryService.calculateScatterPosition (Js.const (1 / 2))))
  <= CONFIG.SCATTER_RADIUS.
Proof.
  destruct C10_scatter_within_radius as (_ & H & _).
  apply H. apply wf_const. lra.
Defined.

(** ** Landmarks *)

Lemma index_at (lm : list Landmark) (i : nat) :
  (i < List.length lm)%nat -> Js.index lm i = Some (at_ lm i).
Proof. intros H. unfold Js.index, at_. now apply nth_error_nth'. Qed.

Lemma sampleHand_length (w b p : R) :
  List.length (sampleHand w b p) = 21%nat.
Proof. reflexivity. Qed.

Lemma sampleHand_pinch (w b p : R) :
  0 <= p -> pinchDistance (sampleHand w b p) = p.
Proof.
  intros H. unfold pinchDistance. simpl.
  replace (0 - 0) with 0 by ring. rewrite hypot_axis.
  replace (w + b + p - (w + b)) with p by ring. now apply Rabs_right, Rle_ge.
Qed.

Lemma sampleHand_spread (w b p : R) :
  0 <= b -> spread (sampleHand w b p) = b.
Proof.
  intros H. unfold spread, distToWrist. simpl.
  replace (0 - 0) with 0 by ring. rewrite hypot_axis.
  replace (w + b - w) with b by ring.
  rewrite Rabs_right by now apply Rle_ge. field.
Qed.

Lemma sampleHand_classify (pinch fist open w b p : R) :
  0 <= b -> 0 <= p ->
  classify pinch fist open (sampleHand w b p)
  = (if Rlt_dec p pinch then PINCH
     else if Rlt_dec b fist then FIST
     else if Rgt_dec b open then OPEN_PALM
     else UNKNOWN).
Proof.
  intros Hb Hp. unfold classify.
  now rewrite sampleHand_pinch, sampleHand_spread.
Qed.

(** ** The classifier of [HandTracker] *)

Lemma sumDistToWrist_tips (lm : list Landmark) :
  (21 <= List.length lm)%nat ->
  HandTracker.sumDistToWrist
    (map (fun i => Js.index lm i) [8; 12; 16; 20]%nat) (Js.index lm 0) 0
  = Js.Normal (spread lm * 4).
Proof.
  intros H. cbn [map]. rewrite !index_at by lia.
  cbn [HandTracker.sumDistToWrist Js.get Js.bind].
  f_equal. unfold spread, distToWrist. field.
Qed.

Lemma detect_full (lm : list Landmark) (rest : list (list Landmark)) :
  (21 <= List.length lm)%nat ->
  HandTracker.detect (mkResult (Some (lm :: rest)))
  = Js.Normal
      (mkHandState (classify 0.05 0.25 0.35 lm)
         (mkPoint2 ((lx (at_ lm 0) - 0.5) * -2) ((ly (at_ lm 0) - 0.5) * -2))
         true).
Proof.
  intros H. unfold HandTracker.detect.
  cbn [landmarks]. rewrite sumDistToWrist_tips by exact H.
  rewrite !index_at by lia. cbn [Js.get Js.bind].
  replace (spread lm * 4 / 4) with (spread lm) by field.
  reflexivity.
Qed.



(** ** The gesture handler of the stand-alone scene *)

Lemma floor_range (u : R) (n : nat) :
  0 <= u < 1 -> (0 < n)%nat ->
  (0 <= Js.floor (u * INR n) < Z.of_nat n)%Z.
Proof.
  intros [H0 H1] Hn. unfold Js.floor.
  destruct (base_Int_part (u * INR n)) as [L U].
  assert (Hpos : 0 < INR n) by now apply lt_0_INR.
  split.
  - assert (H : (-1 < Int_part (u * INR n))%Z).
    { apply lt_IZR. nra. }
    lia.
  - apply lt_IZR. rewrite <- INR_IZR_INZ. nra.
Qed.

Lemma indexZ_in {A : Type} (l : list A) (k : Z) :
  (0 <= k < Z.of_nat (List.length l))%Z ->
  exists a, Js.indexZ l k = Some a /\ In a l.
Proof.
  intros [H0 H1]. unfold Js.indexZ.
  destruct (Z.ltb_spec k 0) as [N | _]; [lia |].
  destruct (nth_error l (Z.to_nat k)) as [a |] eqn:E.
  - exists a. split; [reflexivity | now apply nth_error_In in E].
  - apply nth_error_None in E. lia.
Qed.

Lemma photosOf_in (ps : list App.Particle) (p : App.Particle) :
  In p (App.photosOf ps) <-> In p ps /\ App.type p = App.PHOTO.
Proof.
  unfold App.photosOf. rewrite filter_In.
  destruct (App.ParticleKind_eq_dec (App.type p) App.PHOTO); intuition congruence.
Qed.

Lemma pinchDistOf_full (lm : list Landmark) :
  (21 <= List.length lm)%nat ->
  App.pinchDistOf lm = Js.Normal (pinchDistance lm).
Proof.
  intros H. unfold App.pinchDistOf. now rewrite !index_at by lia.
Qed.

Lemma avgDistOf_full (lm : list Landmark) :
  (21 <= List.length lm)%nat ->
  App.avgDistOf lm = Js.Normal (spread lm).
Proof.
  intros H. unfold App.avgDistOf.
  change [Js.index lm 8; Js.index lm 12; Js.index lm 16; Js.index lm 20]
    with (map (fun i => Js.index lm i) [8; 12; 16; 20]%nat).
  rewrite sumDistToWrist_tips by exact H. cbn [Js.bind].
  f_equal. field.
Qed.

(** The state once the pointer of a full hand is stored. *)
Lemma processGestures_full (lm : list Landmark) (rest : list (list Landmark))
  (ps : list App.Particle) (S : App.STATE) (g : Js.Rng) :
  (21 <= List.length lm)%nat -> Js.wf g ->
  let S1 :=
    App.set_hand S
      (App.mkHand true ((lx (at_ lm 9) - 0.5) * 2)
         ((ly (at_ lm 9) - 0.5) * 2)) in
  let r := App.processGestures (mkResult (Some (lm :: rest))) ps S g in
  snd (fst r) = Js.Normal tt
  /\ Js.wf (snd r)
  /\ match classify 0.05 0.25 0.4 lm with
     | PINCH =>
         if App.Mode_eq_dec (App.mode S) App.FOCUS then fst (fst r) = S1
         else
           match App.photosOf ps with
           | [] => fst (fst r) = App.set_mode S1 App.FOCUS
           | _ :: _ =>
               exists p, In p ps /\ App.type p = App.PHOTO
                 /\ fst (fst r)
                    = App.set_focusTarget (App.set_mode S1 App.FOCUS)
                        (Some (App.id (App.mesh p)))
           end
     | FIST => fst (fst r) = App.set_focusTarget (App.set_mode S1 App.TREE) None
     | OPEN_PALM =>
         fst (fst r) = App.set_focusTarget (App.set_mode S1 App.SCATTER) None
     | UNKNOWN => fst (fst r) = S1
     end.
Proof.
  intros H Hg S1 r. unfold r, App.processGestures, classify.
  cbn [landmarks].
  rewrite pinchDistOf_full, avgDistOf_full by exact H.
  rewrite !index_at by lia. cbn [Js.get].
  fold S1.
  destruct (Rlt_dec (pinchDistance lm) 0.05) as [Hp | Hp].
  - change (App.mode (App.set_hand _ _)) with (App.mode S).
    destruct (App.Mode_eq_dec (App.mode S) App.FOCUS) as [Hm | Hm].
    + repeat split; try apply Hg.
    + destruct (App.photosOf ps) as [| p0 photos] eqn:E.
      * repeat split; try apply Hg.
      * unfold Js.rbind, Js.random.
        destruct (indexZ_in (p0 :: photos)
                    (Js.floor (g 0%nat * INR (List.length (p0 :: photos)))))
          as (p & Ep & Hin).
        { apply floor_range; [apply Hg | simpl; lia]. }
        rewrite Ep. cbn [Js.get Js.ret fst snd].
        split; [reflexivity |]. split; [intros k; apply Hg |].
        exists p. rewrite <- E in Hin. apply photosOf_in in Hin.
        destruct Hin as [Hin Ht]. repeat split; assumption.
  - destruct (Rlt_dec (spread lm) 0.25) as [Hf | Hf].
    + repeat split; try apply Hg.
    + destruct (Rgt_dec (spread lm) 0.4) as [Ho | Ho];
        repeat split; try apply Hg.
Qed.

Lemma processGestures_absent (r : HandLandmarkerResult)
  (ps : list App.Particle) (S : App.STATE) (g : Js.Rng) :
  landmarks r = None \/ landmarks r = Some [] ->
  App.processGestures r ps S g
  = (App.set_hand S
       (App.mkHand false (App.hand_x (App.hand S)) (App.hand_y (App.hand S))),
     Js.Normal tt, g).
Proof.
  intros [H | H]; unfold App.processGestures; now rewrite H.
Qed.

Lemma processGestures_short (lm : list Landmark) (rest : list (list Landmark))
  (ps : list App.Particle) (S : App.STATE) (g : Js.Rng) :
  (List.length lm < 21)%nat ->
  let r := App.processGestures (mkResult (Some (lm :: rest))) ps S g in
  snd (fst r) = Js.Throw Js.TypeError
  /\ App.mode (fst (fst r)) = App.mode S
  /\ App.focusTarget (fst (fst r)) = App.focusTarget S
  /\ App.detected (App.hand (fst (fst r))) = true.
Proof.
  intros H.
  do 21 (destruct lm as [| ? lm]; [now repeat split |]).
  simpl in H. lia.
Qed.

Lemma processGestures_step (lm : list Landmark) (rest : list (list Landmark))
  (ps : list App.Particle) (S : App.STATE) (g : Js.Rng) :
  (21 <= List.length lm)%nat -> Js.wf g ->
  let r := App.processGestures (mkResult (Some (lm :: rest))) ps S g in
  snd (fst r) = Js.Normal tt
  /\ Js.wf (snd r)
  /\ App.mode (fst (fst r))
     = spec_transition (classify 0.05 0.25 0.4 lm) (App.mode S).
Proof.
  intros H Hg r.
  destruct (processGestures_full lm rest ps S g H Hg) as (Hc & Hw & Hs).
  fold r in Hc, Hw, Hs. split; [exact Hc |]. split; [exact Hw |].
  destruct (classify 0.05 0.25 0.4 lm); cbn [spec_transition].
  - now rewrite Hs.
  - now rewrite Hs.
  - now rewrite Hs.
  - destruct (App.Mode_eq_dec (App.mode S) App.FOCUS) as [Hm | Hm].
    + now rewrite Hs.
    + destruct (App.photosOf ps).
      * now rewrite Hs.
      * destruct Hs as (q & _ & _ & Hs). now rewrite Hs.
Qed.


Lemma focusEffect_select (photos : list PhotoData) (g : Js.Rng) :
  photos <> [] -> Js.wf g ->
  exists p, In p photos
    /\ fst (TreeScene.focusEffect AppMode.ZOOM photos None g)
       = Js.Normal (Some (ph_id p)).
Proof.
  intros Hne Hg. destruct photos as [| p0 photos]; [congruence |].
  unfold TreeScene.focusEffect, Js.rbind, Js.random.
  destruct (indexZ_in (p0 :: photos)
              (Js.floor (g 0%nat * INR (List.length (p0 :: photos)))))
    as (p & Ep & Hin).
  { apply floor_range; [apply Hg | simpl; lia]. }
  exists p. split; [exact Hin |]. now rewrite Ep.
Qed.

Ltac thresholds :=
  repeat match goal with
         | |- context [Rlt_dec ?a ?b] => destruct (Rlt_dec a b); try lra
         | |- context [Rgt_dec ?a ?b] => destruct (Rgt_dec a b); try lra
         end;
  try reflexivity.

(** ** The mode state machine *)



(** ** The gesture classifier *)

(** C2. On a hand with all 21 points [detect] hands on a state with the
    gesture chosen in strict priority order: PINCH when the thumb-to-index
    distance is below 0.05, whatever the spread; else FIST when the spread
    is below 0.25; else OPEN_PALM when the spread exceeds 0.35; else
    UNKNOWN, in particular at spread 0.30. [processGestures] takes the same
    decisions with the open threshold 0.4, and moves the mode to FOCUS,
    TREE, SCATTER, or leaves it. *)
Theorem C2_classifier_priority :
  forall (lm : list Landmark) (rest : list (list Landmark)),
    List.length lm = 21%nat ->
    (exists hs : HandState,
        HandTracker.detect (mkResult (Some (lm :: rest))) = Js.Normal hs
        /\ isPresent hs = true
        /\ (pinchDistance lm < 0.05 -> gesture hs = PINCH)
        /\ (0.05 <= pinchDistance lm -> spread lm < 0.25 -> gesture hs = FIST)
        /\ (0.05 <= pinchDistance lm -> 0.25 <= spread lm ->
            spread lm > 0.35 -> gesture hs = OPEN_PALM)
        /\ (0.05 <= pinchDistance lm -> 0.25 <= spread lm <= 0.35 ->
            gesture hs = UNKNOWN)
        /\ (0.05 <= pinchDistance lm -> spread lm = 0.30 ->
            gesture hs = UNKNOWN))
    /\ (forall (ps : list App.Particle) (S : App.STATE) (g : Js.Rng),
          Js.wf g ->
          let r := App.processGestures (mkResult (Some (lm :: rest))) ps S g in
          let S' := fst (fst r) in
          snd (fst r) = Js.Normal tt
          /\ (pinchDistance lm < 0.05 -> App.mode S' = App.FOCUS)
          /\ (0.05 <= pinchDistance lm -> spread lm < 0.25 ->
              App.mode S' = App.TREE)
          /\ (0.05 <= pinchDistance lm -> 0.25 <= spread lm ->
              spread lm > 0.4 -> App.mode S' = App.SCATTER)
          /\ (0.05 <= pinchDistance lm -> 0.25 <= spread lm <= 0.4 ->
              App.mode S' = App.mode S)
          /\ (0.05 <= pinchDistance lm -> spread lm = 0.30 ->
              App.mode S' = App.mode S)).
Proof.
  intros lm rest H.
  assert (H21 : (21 <= List.length lm)%nat) by lia.
  split.
  - eexists. split; [apply (detect_full lm rest H21) |].
    cbn [gesture isPresent]. unfold classify.
    split; [reflexivity |].
    repeat split; intros; thresholds.
  - intros ps S g Hg r S'.
    destruct (processGestures_step lm rest ps S g H21 Hg) as (Hc & _ & Hm).
    fold r in Hc, Hm. fold S' in Hm.
    split; [exact Hc |]. rewrite Hm. unfold classify.
    repeat split; intros; thresholds.
Qed.

Lemma C2_classifier_priority_witness :
  exists hs : HandState,
    HandTracker.detect (oneHand (sampleHand 0.5 0.3 0.3)) = Js.Normal hs
    /\ gesture hs = UNKNOWN.
Proof.
  destruct (C2_classifier_priority (sampleHand 0.5 0.3 0.3) []
              (sampleHand_length 0.5 0.3 0.3))
    as [(hs & Hd & _ & _ & _ & _ & _ & Hu) _].
  exists hs. split; [exact Hd |].
  apply Hu.
  - rewrite sampleHand_pinch; lra.
  - rewrite sampleHand_spread; lra.
Defined.




(** C9, as amended. For a hand with all of its points the pointer that
    [detect] hands on is the wrist [L[0]] mapped to
    [((L[0].x - 0.5) * -2, (L[0].y - 0.5) * -2)], both axes inverted. The
    pointer that [processGestures] stores is taken from the palm centre
    [L[9]] and is not inverted:
    [((L[9].x - 0.5) * 2, (L[9].y - 0.5) * 2)]. *)
Theorem C9_pointer :
  forall (lm : list Landmark) (rest : list (list Landmark)),
    (21 <= List.length lm)%nat ->
    (exists hs : HandState,
        HandTracker.detect (mkResult (Some (lm :: rest))) = Js.Normal hs
        /\ isPresent hs = true
        /\ px (position hs) = (lx (at_ lm 0) - 0.5) * -2
        /\ py (position hs) = (ly (at_ lm 0) - 0.5) * -2)
    /\ (forall (ps : list App.Particle) (S : App.STATE) (g : Js.Rng),
          Js.wf g ->
          let S' :=
            fst (fst (App.processGestures (mkResult (Some (lm :: rest)))
                        ps S g)) in
          App.detected (App.hand S') = true
          /\ App.hand_x (App.hand S') = (lx (at_ lm 9) - 0.5) * 2
          /\ App.hand_y (App.hand S') = (ly (at_ lm 9) - 0.5) * 2).
Proof.
  intros lm rest H. split.
  - eexists. split; [apply (detect_full lm rest H) |]. now cbn.
  - intros ps S g Hg S'.
    destruct (processGestures_full lm rest ps S g H Hg) as (_ & _ & Hs).
    fold S' in Hs.
    destruct (classify 0.05 0.25 0.4 lm).
    + now rewrite Hs.
    + now rewrite Hs.
    + now rewrite Hs.
    + destruct (App.Mode_eq_dec (App.mode S) App.FOCUS).
      * now rewrite Hs.
      * destruct (App.photosOf ps).
        -- now rewrite Hs.
        -- destruct Hs as (q & _ & _ & Hs). now rewrite Hs.
Qed.

Lemma C9_pointer_witness :
  exists hs : HandState,
    HandTracker.detect (oneHand (sampleHand 0.25 0.3 0.3)) = Js.Normal hs
    /\ px (position hs) = (lx (at_ (sampleHand 0.25 0.3 0.3) 0) - 0.5) * -2.
Proof.
  destruct (C9_pointer (sampleHand 0.25 0.3 0.3) []) as [(hs & Hd & _ & Hx & _) _].
  - rewrite sampleHand_length. lia.
  - exists hs. split; [exact Hd | exact Hx].
Defined.

(** C9, as stated, fails for [processGestures]: with every landmark at
    the origin of the image the claimed pointer is (1, 1), and the stored
    one is (-1, -1). *)
Lemma C9_app_pointer_not_inverted :
  let lm := sampleHand 0 0 0 in
  let S' :=
    fst (fst (App.processGestures (oneHand lm) [] App.STATE_init
                (Js.const 0))) in
  (lx (at_ lm 0) - 0.5) * -2 = 1
  /\ App.hand_x (App.hand S') = -1
  /\ App.hand_x (App.hand S') <> (lx (at_ lm 0) - 0.5) * -2.
Proof.
  intros lm S'.
  assert (Hx : App.hand_x (App.hand S') = (lx (at_ lm 9) - 0.5) * 2).
  { destruct (processGestures_full lm [] [] App.STATE_init (Js.const 0))
      as (_ & _ & Hs).
    - unfold lm. rewrite sampleHand_length. lia.
    - apply wf_const. lra.
    - fold (oneHand lm) in Hs. fold S' in Hs.
      destruct (classify 0.05 0.25 0.4 lm); now rewrite Hs. }
  rewrite Hx. unfold lm. cbn. lra.
Qed.

(** ** The animator *)

Section AnimatorFacts.

Variable Matrix4 : Type.
Variable applyInverse : Matrix4 -> Vector3.t -> Vector3.t.
Variable lookAt : App.Mesh -> Matrix4 -> Vector3.t -> Vector3.t.

Let update := App.update Matrix4 applyInverse lookAt.
Let target := App.target Matrix4 applyInverse.
Let frames := App.frames Matrix4 applyInverse lookAt.

Lemma lerp_distance (p t : Vector3.t) (alpha : R) :
  Vector3.distanceTo (Vector3.lerp p t alpha) t
  = Rabs (1 - alpha) * Vector3.distanceTo p t.
Proof.
  unfold Vector3.distanceTo, Vector3.lerp. cbn [Vector3.x Vector3.y Vector3.z].
  rewrite <- sqrt_Rsqr_abs, <- sqrt_mult.
  - f_equal. unfold Rsqr. ring.
  - apply Rle_0_sqr.
  - assert (H := Rle_0_sqr (Vector3.x p - Vector3.x t)).
    assert (H0 := Rle_0_sqr (Vector3.y p - Vector3.y t)).
    assert (H1 := Rle_0_sqr (Vector3.z p - Vector3.z t)).
    unfold Rsqr in *. lra.
Qed.

Lemma distance_nonneg (p t : Vector3.t) : 0 <= Vector3.distanceTo p t.
Proof. apply sqrt_pos. Qed.

Lemma update_static (this : App.Particle) (dt : R) (mode : App.Mode)
  (focus : option nat) (cam : Vector3.t) (clock : R) (mw : Matrix4) :
  let this' := update this dt mode focus cam clock mw in
  App.id (App.mesh this') = App.id (App.mesh this)
  /\ App.type this' = App.type this
  /\ App.isDust this' = App.isDust this
  /\ App.posTree this' = App.posTree this
  /\ App.posScatter this' = App.posScatter this
  /\ App.baseScale this' = App.baseScale this
  /\ App.spinSpeed this' = App.spinSpeed this.
Proof. now cbn. Qed.

Lemma update_target (this : App.Particle) (dt : R) (mode mode' : App.Mode)
  (focus focus' : option nat) (cam : Vector3.t) (clock : R)
  (mw mw' : Matrix4) :
  target (update this dt mode focus cam clock mw) mode' focus' mw'
  = target this mode' focus' mw'.
Proof. reflexivity. Qed.

Lemma update_lerpSpeed (this : App.Particle) (dt : R)
  (mode mode' : App.Mode) (focus focus' : option nat) (cam : Vector3.t)
  (clock : R) (mw : Matrix4) :
  App.lerpSpeed (update this dt mode focus cam clock mw) mode' focus'
  = App.lerpSpeed this mode' focus'.
Proof. reflexivity. Qed.

Lemma update_distance (this : App.Particle) (dt : R) (mode : App.Mode)
  (focus : option nat) (cam : Vector3.t) (clock : R) (mw : Matrix4) :
  Vector3.distanceTo
    (App.position (App.mesh (update this dt mode focus cam clock mw)))
    (target this mode focus mw)
  = Rabs (1 - App.lerpSpeed this mode focus * dt)
    * Vector3.distanceTo (App.position (App.mesh this))
        (target this mode focus mw).
Proof. unfold update, App.update. cbn [App.mesh App.position]. apply lerp_distance. Qed.

Lemma frames_distance (n : nat) (this : App.Particle) (dt : R)
  (mode : App.Mode) (focus : option nat) (cam : Vector3.t)
  (clock : nat -> R) (mw : Matrix4) :
  target (frames n this dt mode focus cam clock mw) mode focus mw
  = target this mode focus mw
  /\ App.lerpSpeed (frames n this dt mode focus cam clock mw) mode focus
     = App.lerpSpeed this mode focus
  /\ Vector3.distanceTo
       (App.position (App.mesh (frames n this dt mode focus cam clock mw)))
       (target this mode focus mw)
     = Rabs (1 - App.lerpSpeed this mode focus * dt) ^ n
       * Vector3.distanceTo (App.position (App.mesh this))
           (target this mode focus mw).
Proof.
  induction n as [| n (IHt & IHs & IHd)].
  - cbn. repeat split. ring.
  - unfold frames in *. cbn [App.frames]. fold update.
    rewrite update_target, update_lerpSpeed.
    split; [exact IHt |]. split; [exact IHs |].
    rewrite <- IHt at 1. rewrite update_distance, IHt, IHs, IHd.
    cbn [pow]. ring.
Qed.

End AnimatorFacts.

Lemma instanceFrame_tree_distance (particle : ParticleData) (i : nat)
  (elapsedTime delta : R) (tempObj : TreeScene.Transform) :
  Vector3.distanceTo
    (TreeScene.position
       (TreeScene.instanceFrame AppMode.TREE particle i elapsedTime delta
          tempObj))
    (pd_initialPos particle)
  = Rabs (1 - delta * 2.5)
    * Vector3.distanceTo (TreeScene.position tempObj) (pd_initialPos particle).
Proof.
  unfold TreeScene.instanceFrame. cbn [TreeScene.position].
  apply lerp_distance.
Qed.

Lemma contraction_factor (a : R) : 0 < a < 2 -> 0 <= Rabs (1 - a) < 1.
Proof.
  intros H. split; [apply Rabs_pos |].
  apply Rabs_def1; lra.
Qed.

Lemma geometric_vanishes (k d0 eps : R) :
  0 <= k < 1 -> 0 <= d0 -> 0 < eps ->
  exists N : nat, forall n : nat, (N <= n)%nat -> k ^ n * d0 < eps.
Proof.
  intros Hk Hd He.
  destruct (pow_lt_1_zero k) with (y := eps / (d0 + 1)) as [N HN].
  - rewrite Rabs_right; lra.
  - apply Rdiv_lt_0_compat; lra.
  - exists N. intros n Hn. specialize (HN n Hn).
    assert (Hpow : 0 <= k ^ n) by (apply pow_le, Hk).
    rewrite Rabs_right in HN by lra.
    assert (Hq : eps / (d0 + 1) * (d0 + 1) = eps) by (field; lra).
    nra.
Qed.

Lemma contraction_run (k d0 : R) (dist : nat -> R) :
  0 <= k < 1 -> 0 <= d0 -> (forall n, dist n = k ^ n * d0) ->
  (forall n, dist (S n) <= dist n)
  /\ (forall n, 0 < dist n -> dist (S n) < dist n)
  /\ (forall eps, 0 < eps ->
        exists N, forall n, (N <= n)%nat -> dist n < eps).
Proof.
  intros Hk Hd0 E.
  assert (Hpow : forall n, 0 <= k ^ n) by (intros n; apply pow_le, Hk).
  split; [| split].
  - intros n. rewrite !E. cbn [pow]. specialize (Hpow n).
    assert (0 <= k ^ n * d0) by nra.
    replace (k * k ^ n * d0) with (k * (k ^ n * d0)) by ring. nra.
  - intros n. rewrite !E. cbn [pow]. intros Hp.
    replace (k * k ^ n * d0) with (k * (k ^ n * d0)) by ring. nra.
  - intros eps He.
    destruct (geometric_vanishes k d0 eps Hk Hd0 He) as [N HN].
    exists N. intros n Hn. rewrite E. now apply HN.
Qed.

Lemma instanceFrames_tree_distance (n : nat) (particle : ParticleData)
  (i : nat) (elapsedTime : nat -> R) (delta : R)
  (tempObj : TreeScene.Transform) :
  Vector3.distanceTo
    (TreeScene.position
       (InstancedGroup.frames n AppMode.TREE particle i elapsedTime delta
          tempObj))
    (pd_initialPos particle)
  = Rabs (1 - delta * 2.5) ^ n
    * Vector3.distanceTo (TreeScene.position tempObj) (pd_initialPos particle).
Proof.
  induction n as [| n IH].
  - cbn. ring.
  - cbn [InstancedGroup.frames pow].
    rewrite instanceFrame_tree_distance, IH. ring.
Qed.

Lemma lerpSpeed_cases (this : App.Particle) (mode : App.Mode)
  (focus : option nat) :
  (mode = App.FOCUS /\ focus = Some (App.id (App.mesh this))
   /\ App.lerpSpeed this mode focus = 5)
  \/ (~ (mode = App.FOCUS /\ focus = Some (App.id (App.mesh this)))
      /\ App.lerpSpeed this mode focus = 2).
Proof.
  unfold App.lerpSpeed, App.isMesh.
  destruct mode; try (right; split; [intros [N _]; discriminate N | lra]).
  destruct focus as [i |].
  - destruct (Nat.eqb_spec (App.id (App.mesh this)) i) as [E | E].
    + left. subst i. split; [reflexivity |]. split; [reflexivity | lra].
    + right. split; [| lra]. intros [_ N]. injection N as N. congruence.
  - right. split; [intros [_ N]; discriminate N | lra].
Qed.

(** C6, as amended. One tick multiplies the distance of a particle to its
    target by [|1 - lerpSpeed*dt|], whatever [dt], where [lerpSpeed] is 5
    for the focus target while the mode is FOCUS and 2 otherwise. So for
    [0 < lerpSpeed*dt < 2] (that is [dt < 1], or [dt < 0.4] for the focused
    particle), with mode, focus target, formation targets and world matrix
    held constant, the factor is below 1, no tick increases the distance,
    a tick at positive distance decreases it, and the position comes
    arbitrarily close to the target. The same holds, frame after frame, for
    an instance of [InstancedGroup] in TREE mode, with the factor
    [|1 - 2.5*delta|] and for [0 < 2.5*delta < 2]. *)
Theorem C6_position_convergence :
  (forall (Matrix4 : Type)
          (applyInverse : Matrix4 -> Vector3.t -> Vector3.t)
          (lookAt : App.Mesh -> Matrix4 -> Vector3.t -> Vector3.t)
          (this : App.Particle) (dt : R) (mode : App.Mode)
          (focus : option nat) (cam : Vector3.t) (clock : nat -> R)
          (mw : Matrix4),
      let tgt := App.target Matrix4 applyInverse this mode focus mw in
      let dist (n : nat) :=
        Vector3.distanceTo
          (App.position
             (App.mesh
                (App.frames Matrix4 applyInverse lookAt n this dt mode focus
                   cam clock mw)))
          tgt in
      let k := Rabs (1 - App.lerpSpeed this mode focus * dt) in
      ((mode = App.FOCUS /\ focus = Some (App.id (App.mesh this))
        /\ App.lerpSpeed this mode focus = 5)
       \/ (~ (mode = App.FOCUS /\ focus = Some (App.id (App.mesh this)))
           /\ App.lerpSpeed this mode focus = 2))
      /\ (forall n, dist (S n) = k * dist n)
      /\ (0 < App.lerpSpeed this mode focus * dt < 2 ->
          k < 1
          /\ (forall n, dist (S n) <= dist n)
          /\ (forall n, 0 < dist n -> dist (S n) < dist n)
          /\ (forall eps, 0 < eps ->
                exists N, forall n, (N <= n)%nat -> dist n < eps)))
  /\ (forall (particle : ParticleData) (i : nat) (elapsedTime : nat -> R)
             (delta : R) (tempObj : TreeScene.Transform),
        let dist (n : nat) :=
          Vector3.distanceTo
            (TreeScene.position
               (InstancedGroup.frames n AppMode.TREE particle i elapsedTime
                  delta tempObj))
            (pd_initialPos particle) in
        let k := Rabs (1 - delta * 2.5) in
        (forall n, dist (S n) = k * dist n)
        /\ (0 < delta * 2.5 < 2 ->
            k < 1
            /\ (forall n, dist (S n) <= dist n)
            /\ (forall n, 0 < dist n -> dist (S n) < dist n)
            /\ (forall eps, 0 < eps ->
                  exists N, forall n, (N <= n)%nat -> dist n < eps))).
Proof.
  split.
  - intros Matrix4 applyInverse lookAt this dt mode focus cam clock mw tgt
      dist k.
    set (d0 := Vector3.distanceTo (App.position (App.mesh this)) tgt).
    assert (Hd0 : 0 <= d0) by apply distance_nonneg.
    assert (E : forall n, dist n = k ^ n * d0).
    { intros n. unfold dist, tgt, k.
      apply (frames_distance Matrix4 applyInverse lookAt n this dt mode focus
               cam clock mw). }
    split; [apply lerpSpeed_cases |]. split.
    + intros n. rewrite !E. cbn [pow]. ring.
    + intros Ha.
      assert (Hk : 0 <= k < 1) by now apply contraction_factor.
      split; [apply Hk |].
      exact (contraction_run k d0 dist Hk Hd0 E).
  - intros particle i elapsedTime delta tempObj dist k.
    set (d0 := Vector3.distanceTo (TreeScene.position tempObj)
                 (pd_initialPos particle)).
    assert (Hd0 : 0 <= d0) by apply distance_nonneg.
    assert (E : forall n, dist n = k ^ n * d0).
    { intros n. unfold dist, k. apply instanceFrames_tree_distance. }
    split.
    + intros n. rewrite !E. cbn [pow]. ring.
    + intros Ha.
      assert (Hk : 0 <= k < 1) by now apply contraction_factor.
      split; [apply Hk |].
      exact (contraction_run k d0 dist Hk Hd0 E).
Qed.

Lemma C6_position_convergence_witness :
  let d (n : nat) :=
    Vector3.distanceTo
      (App.position
         (App.mesh
            (App.frames unit idInverse idLookAt n sampleParticle (1 / 4)
               App.TREE None (Vector3.new 0 0 18) (fun _ => 0) tt)))
      (App.target unit idInverse sampleParticle App.TREE None tt) in
  let e (n : nat) :=
    Vector3.distanceTo
      (TreeScene.position
         (InstancedGroup.frames n AppMode.TREE sampleData 0 (fun _ => 0)
            (1 / 5) sampleTransform))
      (pd_initialPos sampleData) in
  (d 1%nat = 1 / 2 * d 0%nat /\ d 1%nat <= d 0%nat)
  /\ (e 1%nat = 1 / 2 * e 0%nat /\ e 1%nat <= e 0%nat).
Proof.
  intros d e.
  destruct C6_position_convergence as [HA HB].
  split.
  - destruct (HA unit idInverse idLookAt sampleParticle (1 / 4) App.TREE None
                (Vector3.new 0 0 18) (fun _ => 0) tt) as (_ & Hf & Hc).
    destruct Hc as (_ & Hle & _); [cbn; lra |].
    split; [| exact (Hle 0%nat)].
    unfold d. rewrite (Hf 0%nat). f_equal. cbn [App.lerpSpeed].
    replace (1 - 2.0 * (1 / 4)) with (1 / 2) by lra.
    apply Rabs_right. lra.
  - destruct (HB sampleData 0%nat (fun _ => 0) (1 / 5) sampleTransform)
      as (Hf & Hc).
    destruct Hc as (_ & Hle & _); [lra |].
    split; [| exact (Hle 0%nat)].
    unfold e. rewrite (Hf 0%nat). f_equal.
    replace (1 - 1 / 5 * 2.5) with (1 / 2) by lra.
    apply Rabs_right. lra.
Defined.

(** C6, as stated, fails for a large [dt]: with [dt = 2] the interpolation
    factor is 4, and a particle at distance 1 from its tree target is at
    distance 3 after the tick. *)
Lemma C6_large_dt_overshoots :
  let tgt := App.target unit idInverse sampleParticle App.TREE None tt in
  let this' :=
    App.update unit idInverse idLookAt sampleParticle 2 App.TREE None
      (Vector3.new 0 0 18) 0 tt in
  0 < 2
  /\ Vector3.distanceTo (App.position (App.mesh sampleParticle)) tgt = 1
  /\ Vector3.distanceTo (App.position (App.mesh this')) tgt = 3
  /\ ~ Vector3.distanceTo (App.position (App.mesh this')) tgt
       <= Vector3.distanceTo (App.position (App.mesh sampleParticle)) tgt.
Proof.
  intros tgt this'.
  assert (E0 : Vector3.distanceTo (App.position (App.mesh sampleParticle)) tgt
               = 1).
  { unfold Vector3.distanceTo. cbn.
    replace ((1 - 0) * (1 - 0) + (0 - 0) * (0 - 0) + (0 - 0) * (0 - 0))
      with 1 by ring.
    apply sqrt_1. }
  assert (E1 : Vector3.distanceTo (App.position (App.mesh this')) tgt = 3).
  { unfold this', tgt. rewrite update_distance. fold tgt. rewrite E0. cbn.
    replace (1 - 2.0 * 2) with (- (3)) by lra.
    rewrite Rabs_Ropp, Rabs_right; lra. }
  rewrite E0, E1. repeat split; lra.
Qed.

(** C5, as amended. A tick advances the rotation by [spinSpeed*dt] on each
    axis while the mode is SCATTER only. While the mode is TREE the X and Z
    angles are interpolated towards zero (multiplied by [1 - dt]) and the Y
    angle advances by [0.5*dt]. While the mode is FOCUS the rotation of a
    particle that is not the focus target is left as it is, and the focus
    target takes the orientation that [lookAt] gives it towards the camera,
    from its position after the tick. *)
Theorem C5_rotation_update :
  forall (Matrix4 : Type)
         (applyInverse : Matrix4 -> Vector3.t -> Vector3.t)
         (lookAt : App.Mesh -> Matrix4 -> Vector3.t -> Vector3.t)
         (this : App.Particle) (dt : R) (focus : option nat)
         (cam : Vector3.t) (clock : R) (mw : Matrix4),
    let upd (mode : App.Mode) :=
      App.mesh
        (App.update Matrix4 applyInverse lookAt this dt mode focus cam clock
           mw) in
    let rot := App.rotation (App.mesh this) in
    let spin := App.spinSpeed this in
    App.rotation (upd App.SCATTER)
    = Vector3.new (Vector3.x rot + Vector3.x spin * dt)
        (Vector3.y rot + Vector3.y spin * dt)
        (Vector3.z rot + Vector3.z spin * dt)
    /\ App.rotation (upd App.TREE)
       = Vector3.new ((1 - dt) * Vector3.x rot) (Vector3.y rot + 0.5 * dt)
           ((1 - dt) * Vector3.z rot)
    /\ (App.isMesh (App.mesh this) focus = false ->
        App.rotation (upd App.FOCUS) = rot)
    /\ (App.isMesh (App.mesh this) focus = true ->
        App.rotation (upd App.FOCUS)
        = lookAt
            (App.mkMesh (App.id (App.mesh this))
               (App.position (upd App.FOCUS)) rot
               (App.scale (App.mesh this)))
            mw cam).
Proof.
  intros Matrix4 applyInverse lookAt this dt focus cam clock mw upd rot spin.
  split; [reflexivity |]. split; [| split].
  - unfold upd, App.update, MathUtils.lerp.
    cbn [App.mesh App.rotation]. fold rot. f_equal; ring.
  - intros H. unfold upd, App.update. cbn [App.mesh App.rotation].
    now rewrite H.
  - intros H. unfold upd, App.update.
    cbn [App.mesh App.rotation App.position]. now rewrite H.
Qed.

Lemma C5_rotation_update_witness :
  App.rotation
    (App.mesh
       (App.update unit idInverse idLookAt sampleParticle 1 App.FOCUS (Some 8%nat)
          (Vector3.new 0 0 18) 0 tt))
  = App.rotation (App.mesh sampleParticle).
Proof.
  destruct (C5_rotation_update unit idInverse idLookAt sampleParticle 1
              (Some 8%nat) (Vector3.new 0 0 18) 0 tt) as (_ & _ & H & _).
  apply H. reflexivity.
Defined.

(** C5, as stated, fails in FOCUS mode: a particle that is not the focus
    target, with spin rate 1 on each axis, keeps its rotation (0, 0, 0)
    over a tick of [dt = 1] and does not advance to (1, 1, 1). *)
Lemma C5_focus_holds_rotation :
  let this' :=
    App.update unit idInverse idLookAt sampleParticle 1 App.FOCUS (Some 8%nat)
      (Vector3.new 0 0 18) 0 tt in
  let rot := App.rotation (App.mesh sampleParticle) in
  let spin := App.spinSpeed sampleParticle in
  App.isMesh (App.mesh sampleParticle) (Some 8%nat) = false
  /\ App.rotation (App.mesh this') = Vector3.new 0 0 0
  /\ App.rotation (App.mesh this')
     <> Vector3.new (Vector3.x rot + Vector3.x spin * 1)
          (Vector3.y rot + Vector3.y spin * 1)
          (Vector3.z rot + Vector3.z spin * 1).
Proof.
  cbn. repeat split. intros H. injection H as H _ _. lra.
Qed.

(** C8, as amended. A PINCH that arrives while the registry holds no
    PHOTO particle and no focus target is held sets the mode to FOCUS,
    leaves the target unset, and raises nothing. The animator then gives
    every particle the position target and the easing rate of SCATTER mode,
    so the position after a tick is the same as in SCATTER and no particle
    takes the zoom position; no particle steers to the zoom scale either.
    Rotation and scale differ from SCATTER: the rotation is left as it is
    instead of spinning, and a particle that is not dust steers to
    [0.8*baseScale] instead of [baseScale]; dust pulses as in SCATTER. *)
Theorem C8_focus_without_photos :
  (forall (lm : list Landmark) (rest : list (list Landmark))
          (ps : list App.Particle) (S : App.STATE) (g : Js.Rng),
      (21 <= List.length lm)%nat -> Js.wf g ->
      classify 0.05 0.25 0.4 lm = PINCH ->
      App.photosOf ps = [] -> App.focusTarget S = None ->
      let o := fst (App.processGestures (mkResult (Some (lm :: rest))) ps S g)
      in
      snd o = Js.Normal tt
      /\ App.mode (fst o) = App.FOCUS
      /\ App.focusTarget (fst o) = None)
  /\ (forall (Matrix4 : Type)
             (applyInverse : Matrix4 -> Vector3.t -> Vector3.t)
             (lookAt : App.Mesh -> Matrix4 -> Vector3.t -> Vector3.t)
             (this : App.Particle) (dt : R) (cam : Vector3.t) (clock : R)
             (mw : Matrix4),
        let upd (mode : App.Mode) :=
          App.mesh
            (App.update Matrix4 applyInverse lookAt this dt mode None cam
               clock mw) in
        let pulse :=
          App.baseScale this
          * (0.8 + 0.4 * sin (clock * 4 + INR (App.id (App.mesh this)))) in
        App.target Matrix4 applyInverse this App.FOCUS None mw
        = App.posScatter this
        /\ App.lerpSpeed this App.FOCUS None
           = App.lerpSpeed this App.SCATTER None
        /\ App.position (upd App.FOCUS) = App.position (upd App.SCATTER)
        /\ App.rotation (upd App.FOCUS) = App.rotation (App.mesh this)
        /\ App.targetScale this App.FOCUS None clock
           = (if App.isDust this then pulse else App.baseScale this * 0.8)
        /\ (App.type this <> App.PHOTO ->
            App.targetScale this App.SCATTER None clock
            = (if App.isDust this then pulse else App.baseScale this))
        /\ (App.isDust this = true ->
            App.scale (upd App.FOCUS) = App.scale (upd App.SCATTER))).
Proof.
  split.
  - intros lm rest ps S g H Hg Hc Hp Hf o.
    destruct (processGestures_full lm rest ps S g H Hg) as (Hn & _ & Hs).
    fold o in Hn, Hs. rewrite Hc, Hp in Hs. split; [exact Hn |].
    destruct (App.Mode_eq_dec (App.mode S) App.FOCUS) as [Hm | Hm];
      rewrite Hs; cbn; auto.
  - intros Matrix4 applyInverse lookAt this dt cam clock mw upd pulse.
    do 4 (split; [reflexivity |]). split; [| split].
    + unfold App.targetScale. destruct (App.isDust this); reflexivity.
    + intros Ht. unfold App.targetScale.
      destruct (App.isDust this); [reflexivity |].
      destruct (App.type this); try reflexivity. contradiction.
    + intros Hd. unfold upd, App.update, App.targetScale.
      cbn [App.mesh App.scale]. rewrite Hd. reflexivity.
Qed.

Lemma C8_focus_without_photos_witness :
  let o :=
    fst (App.processGestures (oneHand (sampleHand 0.5 0 0)) [sampleParticle]
           App.STATE_init (Js.const 0)) in
  snd o = Js.Normal tt
  /\ App.mode (fst o) = App.FOCUS
  /\ App.focusTarget (fst o) = None.
Proof.
  destruct C8_focus_without_photos as [H _].
  apply (H (sampleHand 0.5 0 0) [] [sampleParticle] App.STATE_init
           (Js.const 0)).
  - rewrite sampleHand_length. lia.
  - apply wf_const. lra.
  - rewrite sampleHand_classify by lra. thresholds.
  - reflexivity.
  - reflexivity.
Defined.

(** C8, as stated, fails: with no focus target an ornament of base scale 1
    and spin rate 1 is not treated as in SCATTER. Over a tick of
    [dt = 1/4] its scale goes to 0.8 and its rotation stays, where SCATTER
    keeps the scale 1 and turns it by 1/4. *)
Lemma C8_focus_differs_from_scatter :
  let upd (mode : App.Mode) :=
    App.mesh
      (App.update unit idInverse idLookAt sampleParticle (1 / 4) mode None
         (Vector3.new 0 0 18) 0 tt) in
  Vector3.x (App.scale (upd App.FOCUS)) = 0.8
  /\ Vector3.x (App.scale (upd App.SCATTER)) = 1
  /\ Vector3.x (App.rotation (upd App.FOCUS)) = 0
  /\ Vector3.x (App.rotation (upd App.SCATTER)) = 1 / 4
  /\ upd App.FOCUS <> upd App.SCATTER.
Proof.
  intros upd.
  assert (Hf : Vector3.x (App.scale (upd App.FOCUS)) = 0.8) by (cbn; lra).
  assert (Hs : Vector3.x (App.scale (upd App.SCATTER)) = 1) by (cbn; lra).
  split; [exact Hf |]. split; [exact Hs |].
  split; [cbn; lra |]. split; [cbn; lra |].
  intros E. rewrite E in Hf. lra.
Qed.

(** ** The scatter formation *)

Lemma cos_cap (phi : R) :
  0 <= phi <= PI -> (1 / 2 <= cos phi <-> phi <= PI / 3).
Proof.
  intros H. assert (HPI := PI_RGT_0). rewrite <- cos_PI3. split; intros L.
  - apply cos_decr_0; lra.
  - apply cos_decr_1; lra.
Qed.

(** C4: what the two samplers compute. In [calculateScatterPosition] the
    polar angle is itself uniform, [phi = PI*u]: the draws with [u <= 1/3],
    a third of them, are exactly those that land in the cone [z >= |p|/2]
    around the pole, which holds a quarter of the volume of the ball and
    would receive the draws [u <= 1/4] under a uniform [cos(phi)]; the
    radius is
    [SCATTER_RADIUS * cbrt(u)]. In [Particle.calculatePositions]
    [cos(phi) = 2*u - 1] is uniform, and the radius is linear in its draw,
    [8 + 12*u] (dust: [12 + 20*u]), with no cube root. *)
Theorem C4_scatter_sampling :
  (forall g : Js.Rng, Js.wf g -> 0 < g 2%nat ->
      let p := fst (GeometryService.calculateScatterPosition g) in
      Vector3.length p = CONFIG.SCATTER_RADIUS * Js.cbrt (g 2%nat)
      /\ Vector3.z p = Vector3.length p * cos (PI * g 1%nat)
      /\ (Vector3.length p / 2 <= Vector3.z p <-> g 1%nat <= 1 / 3))
  /\ (forall (isDust : bool) (g : Js.Rng), Js.wf g ->
        let q := snd (fst (App.calculatePositions isDust g)) in
        Vector3.length q
        = (if isDust then 12 + g 3%nat * 20 else 8 + g 3%nat * 12)
        /\ Vector3.z q = Vector3.length q * (2 * g 5%nat - 1)).
Proof.
  split.
  - intros g Hg Hpos p.
    assert (HL := scatter_length g Hg). fold p in HL.
    assert (Hz : Vector3.z p = Vector3.length p * cos (PI * g 1%nat)).
    { rewrite HL. unfold p. rewrite scatter_position. cbn.
      replace (0 + g 1%nat * (PI - 0)) with (PI * g 1%nat) by ring.
      replace (0 + g 2%nat * (1 - 0)) with (g 2%nat) by ring.
      reflexivity. }
    split; [exact HL |]. split; [exact Hz |].
    assert (Hr : 0 < Vector3.length p).
    { rewrite HL, (cbrt_pos _ Hpos).
      assert (He := exp_pos (ln (g 2%nat) / 3)).
      unfold CONFIG.SCATTER_RADIUS. lra. }
    assert (HPI := PI_RGT_0). assert (Hu := Hg 1%nat).
    assert (Hcap := cos_cap (PI * g 1%nat)).
    rewrite Hz. split; intros L.
    + assert (1 / 2 <= cos (PI * g 1%nat)) by nra.
      assert (PI * g 1%nat <= PI / 3) by (apply Hcap; [nra | assumption]).
      nra.
    + assert (1 / 2 <= cos (PI * g 1%nat)) by (apply Hcap; nra).
      nra.
  - intros isDust g Hg q.
    assert (H3 := Hg 3%nat). assert (H5 := Hg 5%nat).
    set (rScatter := if isDust then 12 + g 3%nat * 20 else 8 + g 3%nat * 12).
    assert (Hr : 0 <= rScatter) by (unfold rScatter; destruct isDust; lra).
    assert (HL : Vector3.length q = rScatter).
    { unfold q, App.calculatePositions, Vector3.length, Js.rbind, Js.random,
        Js.ret. cbn. fold rScatter.
      rewrite sphere_radius. now apply Rabs_right, Rle_ge. }
    split; [exact HL |]. rewrite HL.
    unfold q, App.calculatePositions, Js.rbind, Js.random, Js.ret. cbn.
    fold rScatter. rewrite cos_acos by lra. reflexivity.
Qed.

Lemma C4_scatter_sampling_witness :
  let p :=
    fst (GeometryService.calculateScatterPosition
           (Js.draws [0; 1 / 3; 1 / 8])) in
  Vector3.length p / 2 <= Vector3.z p.
Proof.
  destruct C4_scatter_sampling as [H _].
  destruct (H (Js.draws [0; 1 / 3; 1 / 8])) as (_ & _ & Hcap).
  - apply wf_draws. repeat constructor; lra.
  - cbn. lra.
  - apply Hcap. cbn. lra.
Defined.

(* ================================================================== *)
(** * Further properties of the formation generator *)
(* ================================================================== *)

Lemma randFloat_range (low high : R) (g : Js.Rng) :
  Js.wf g -> low < high ->
  low <= fst (MathUtils.randFloat low high g) < high.
Proof.
  intros Hg H. cbn. assert (Hu := Hg 0%nat). nra.
Qed.

Lemma chooseKind_ok (randomVal : R) (g : Js.Rng) (i : Id)
  (a b : Vector3.t) :
  Js.wf g ->
  let k := fst (GeometryService.chooseKind randomVal g) in
  ornamentOk (mkParticleData i a b (snd (fst k)) (fst (fst k)) (snd k)).
Proof.
  intros Hg. unfold GeometryService.chooseKind, ornamentOk.
  assert (Hu := Hg 0%nat).
  destruct (Rlt_dec randomVal 0.50);
    [| destruct (Rlt_dec randomVal 0.75);
       [| destruct (Rlt_dec randomVal 0.90)]]; cbn.
  - left. repeat split; nra.
  - right; left. repeat split; nra.
  - right; right; left. repeat split; nra.
  - right; right; right. repeat split; nra.
Qed.

#[local] Opaque GeometryService.calculateScatterPosition
  GeometryService.chooseKind.

Lemma generateParticles_from_shape (count n : nat) :
  forall (i : nat) (g : Js.Rng), Js.wf g ->
    let ps := fst (GeometryService.generateParticles_from count n i g) in
    map pd_id ps = map PId (seq i n)
    /\ map pd_initialPos ps
       = map (fun k => GeometryService.calculateTreePosition (INR k)
                         (INR count)) (seq i n)
    /\ Forall ornamentOk ps.
Proof.
  induction n as [| n IH]; intros i g Hg.
  - cbn. split; [reflexivity | split; [reflexivity | constructor]].
  - cbn [GeometryService.generateParticles_from seq map].
    unfold Js.rbind. cbn [Js.random].
    assert (H1 := chooseKind_wf (g 0%nat) (fun n => g (S n)) (wf_next g Hg)).
    assert (Hk := fun a b =>
              chooseKind_ok (g 0%nat) (fun n => g (S n)) (PId i) a b
                (wf_next g Hg)).
    destruct (GeometryService.chooseKind (g 0%nat) (fun n => g (S n)))
      as [[[ty col] sc] g1].
    cbn [fst snd] in H1, Hk.
    destruct (scatter_spec g1 H1) as [_ H3].
    destruct (GeometryService.calculateScatterPosition g1) as [sp g2].
    cbn [snd] in H3.
    destruct (IH (S i) g2 H3) as (H4 & H5 & H6).
    destruct (GeometryService.generateParticles_from count n (S i) g2)
      as [rest g3].
    cbn [fst snd Js.ret map pd_id pd_initialPos] in *.
    split; [now rewrite H4 |]. split; [now rewrite H5 |].
    constructor; [apply Hk | exact H6].
Qed.

Lemma processPhotos_from_shape (fl : R -> R) (len : nat)
  (urls : list string) :
  forall (i : nat) (g : Js.Rng),
    let photos := fst (GeometryService.processPhotos_from fl len urls i g) in
    map ph_url photos = urls
    /\ map ph_id photos = map PhotoId (seq i (List.length urls))
    /\ map ph_initialPos photos
       = map (fun k =>
                Vector3.multiplyScalar
                  (GeometryService.calculateTreePosition
                     (IZR (Js.floor
                             (fl (fl (INR k / INR len)
                                  * INR CONFIG.PARTICLE_COUNT))))
                     (INR CONFIG.PARTICLE_COUNT)) 1.3)
           (seq i (List.length urls))
    /\ Forall (fun p => ph_aspectRatio p = 1) photos.
Proof.
  induction urls as [| url urls IH]; intros i g.
  - cbn. repeat split. constructor.
  - cbn [GeometryService.processPhotos_from List.length seq map].
    unfold Js.rbind.
    destruct (GeometryService.calculateScatterPosition g) as [sp g2].
    destruct (IH (S i) g2) as (H1 & H2 & H3 & H4).
    destruct (GeometryService.processPhotos_from fl len urls (S i) g2)
      as [rest g3].
    cbn [fst snd Js.ret map ph_url ph_id ph_initialPos] in *.
    split; [now rewrite H1 |]. split; [now rewrite H2 |].
    split; [now rewrite H3 |].
    constructor; [reflexivity | exact H4].
Qed.

#[local] Transparent GeometryService.calculateScatterPosition
  GeometryService.chooseKind.

(** X1. [generateParticles(count)] numbers its particles [p-0], [p-1],
    ... in order, puts particle [k] at tree position [k] of [count], and
    gives each one of the four pairs of type and colour with a scale in
    the range of that pair, hence a positive scale below 0.45. *)
Theorem X1_generateParticles_shape :
  forall (count : nat) (g : Js.Rng), Js.wf g ->
    let ps := fst (GeometryService.generateParticles count g) in
    map pd_id ps = map PId (seq 0 count)
    /\ map pd_initialPos ps
       = map (fun k => GeometryService.calculateTreePosition (INR k)
                         (INR count)) (seq 0 count)
    /\ Forall (fun p => ornamentOk p /\ 0.1 <= pd_scale p < 0.45) ps.
Proof.
  intros count g Hg ps.
  destruct (generateParticles_from_shape count count 0 g Hg) as (H1 & H2 & H3).
  split; [exact H1 |]. split; [exact H2 |].
  apply Forall_impl with (2 := H3).
  intros p Hp. split; [exact Hp |].
  destruct Hp as [(_ & _ & H) | [(_ & _ & H) | [(_ & _ & H) | (_ & _ & H)]]];
    lra.
Qed.

Lemma X1_generateParticles_shape_witness :
  map pd_id (fst (GeometryService.generateParticles 3 (Js.const (1 / 2))))
  = [PId 0; PId 1; PId 2].
Proof.
  destruct (X1_generateParticles_shape 3 (Js.const (1 / 2))) as [H _].
  - apply wf_const. lra.
  - exact H.
Defined.

Lemma ornament_tests (p : ParticleData) :
  ornamentOk p ->
  let b1 := Ornaments.isType SPHERE p
            && String.eqb (pd_color p) COLORS.MATTE_GREEN in
  let b2 := Ornaments.isType SPHERE p
            && String.eqb (pd_color p) COLORS.METALLIC_GOLD in
  let b3 := Ornaments.isType CUBE p in
  let b4 := Ornaments.isType CANDY p in
  (b1, b2, b3, b4) = (true, false, false, false)
  \/ (b1, b2, b3, b4) = (false, true, false, false)
  \/ (b1, b2, b3, b4) = (false, false, true, false)
  \/ (b1, b2, b3, b4) = (false, false, false, true).
Proof.
  unfold Ornaments.isType.
  intros [(Ht & Hc & _) | [(Ht & Hc & _) | [(Ht & Hc & _) | (Ht & Hc & _)]]];
    rewrite Ht, Hc; cbn; auto.
Qed.

Lemma ornament_groups (ps : list ParticleData) :
  Forall ornamentOk ps ->
  Permutation
    (Ornaments.greenSpheres ps ++ Ornaments.goldSpheres ps
     ++ Ornaments.redCubes ps ++ Ornaments.candies ps) ps.
Proof.
  unfold Ornaments.greenSpheres, Ornaments.goldSpheres, Ornaments.redCubes,
    Ornaments.candies.
  induction 1 as [| p ps Hp _ IH]; [constructor |].
  cbn [filter].
  destruct (ornament_tests p Hp) as [E | [E | [E | E]]];
    cbv zeta in E; injection E as -> -> -> ->.
  - cbn [app]. apply perm_skip, IH.
  - apply Permutation_sym, Permutation_cons_app, Permutation_sym, IH.
  - rewrite app_assoc. cbn [app].
    apply Permutation_sym, Permutation_cons_app, Permutation_sym.
    rewrite <- app_assoc. exact IH.
  - rewrite 2!app_assoc.
    apply Permutation_sym, Permutation_cons_app, Permutation_sym.
    rewrite <- 2!app_assoc. exact IH.
Qed.

(** X2. The four instanced groups of [Ornaments] (green spheres, gold
    spheres, red cubes, candies) partition the particles of
    [generateParticles]: together they hold each particle exactly once, so
    their sizes add up to [count]. *)
Theorem X2_ornament_groups_partition :
  forall (count : nat) (g : Js.Rng), Js.wf g ->
    let ps := fst (GeometryService.generateParticles count g) in
    Permutation
      (Ornaments.greenSpheres ps ++ Ornaments.goldSpheres ps
       ++ Ornaments.redCubes ps ++ Ornaments.candies ps) ps
    /\ (List.length (Ornaments.greenSpheres ps)
        + List.length (Ornaments.goldSpheres ps)
        + List.length (Ornaments.redCubes ps)
        + List.length (Ornaments.candies ps) = count)%nat.
Proof.
  intros count g Hg. unfold GeometryService.generateParticles. cbv zeta.
  destruct (generateParticles_from_shape count count 0 g Hg) as (_ & _ & H3).
  destruct (generateParticles_from_spec count count 0 g Hg) as (_ & HL & _).
  assert (P := ornament_groups _ H3).
  split; [exact P |].
  apply Permutation_length in P.
  rewrite !length_app in P. lia.
Qed.

Lemma X2_ornament_groups_partition_witness :
  let ps := fst (GeometryService.generateParticles 5 (Js.const (4 / 5))) in
  (List.length (Ornaments.greenSpheres ps)
   + List.length (Ornaments.goldSpheres ps)
   + List.length (Ornaments.redCubes ps)
   + List.length (Ornaments.candies ps) = 5)%nat.
Proof.
  destruct (X2_ornament_groups_partition 5 (Js.const (4 / 5))) as [_ H].
  - apply wf_const. lra.
  - exact H.
Defined.

(** X3. [processPhotos(urls)] returns one record per url, in the order of
    the urls and carrying them unchanged, numbered [photo-0], [photo-1],
    ..., each with aspect ratio 1; an empty list of urls gives no photo. *)
Theorem X3_processPhotos_roundtrip :
  forall (fl : R -> R) (urls : list string) (g : Js.Rng),
    let photos := fst (GeometryService.processPhotos fl urls g) in
    map ph_url photos = urls
    /\ List.length photos = List.length urls
    /\ map ph_id photos = map PhotoId (seq 0 (List.length urls))
    /\ Forall (fun p => ph_aspectRatio p = 1) photos.
Proof.
  intros fl urls g photos.
  destruct (processPhotos_from_shape fl (List.length urls) urls 0 g)
    as (H1 & H2 & _ & H4).
  fold (GeometryService.processPhotos fl urls g) in H1, H2, H4.
  fold photos in H1, H2, H4.
  split; [exact H1 |]. split; [| split; [exact H2 | exact H4]].
  transitivity (List.length (map ph_url photos)).
  - symmetry. apply length_map.
  - now rewrite H1.
Qed.

Lemma floor_mono (a b : R) : a <= b -> (Js.floor a <= Js.floor b)%Z.
Proof.
  intros H. unfold Js.floor.
  destruct (base_Int_part a) as [La _].
  destruct (base_Int_part b) as [_ Ub].
  assert (L : (Int_part a < Int_part b + 1)%Z).
  { apply lt_IZR. rewrite plus_IZR. lra. }
  lia.
Qed.

Lemma INR_PARTICLE_COUNT : INR CONFIG.PARTICLE_COUNT = 450.
Proof.
  unfold CONFIG.PARTICLE_COUNT. rewrite INR_IZR_INZ. reflexivity.
Qed.

Lemma ratio_unit (k len : nat) :
  (k < len)%nat -> 0 <= INR k / INR len < 1.
Proof.
  intros H.
  assert (Hk : 0 <= INR k) by apply pos_INR.
  assert (Hl : INR k < INR len) by now apply lt_INR.
  assert (Hp : 0 < INR len) by lra.
  split.
  - apply Rmult_le_pos; [exact Hk | left; now apply Rinv_0_lt_compat].
  - apply (Rmult_lt_reg_r (INR len)); [exact Hp |].
    unfold Rdiv. rewrite Rmult_assoc, Rinv_l; lra.
Qed.

Lemma Rabs_between (x a : R) : Rabs x <= a -> - a <= x <= a.
Proof. unfold Rabs. destruct (Rcase_abs x); lra. Qed.

Lemma floor_unique (x : R) (z : Z) :
  IZR z <= x < IZR z + 1 -> Js.floor x = z.
Proof.
  intros [L U]. unfold Js.floor.
  destruct (base_Int_part x) as [L' U'].
  assert (H1 : (Int_part x < z + 1)%Z) by (apply lt_IZR; rewrite plus_IZR; lra).
  assert (H2 : (z < Int_part x + 1)%Z) by (apply lt_IZR; rewrite plus_IZR; lra).
  lia.
Qed.

Lemma ratio_bounds (k len : nat) :
  (k < len)%nat -> INR len <= 4294967296 ->
  0 <= INR k / INR len <= 1 - / 4294967296
  /\ ((0 < k)%nat -> / 4294967296 <= INR k / INR len).
Proof.
  intros H Hlen.
  assert (Hk : 0 <= INR k) by apply pos_INR.
  assert (Hl : INR k + 1 <= INR len).
  { rewrite <- S_INR. apply le_INR. lia. }
  assert (Hp : 0 < INR len) by lra.
  set (r := INR k / INR len).
  assert (Er : r * INR len = INR k) by (unfold r; field; lra).
  assert (Hr := ratio_unit k len H). fold r in Hr.
  assert (Hgap : 1 <= (1 - r) * INR len) by lra.
  assert (Hm : (1 - r) * INR len <= (1 - r) * 4294967296).
  { apply Rmult_le_compat_l; lra. }
  split; [split; lra |].
  intros Hk0.
  assert (H1 : 1 <= INR k).
  { replace 1 with (INR 1) by reflexivity. apply le_INR. lia. }
  assert (Hm' : r * INR len <= r * 4294967296).
  { apply Rmult_le_compat_l; lra. }
  lra.
Qed.

(** The rounded product of the tree index, for a rounding that is
    monotone, keeps zero and has the relative error of doubles. *)
Lemma rounded_product (fl : R -> R) (k len : nat) :
  (forall x y, x <= y -> fl x <= fl y) ->
  fl 0 = 0 ->
  (forall x, / 1099511627776 <= x <= 1099511627776 ->
             Rabs (fl x - x) <= x / 9007199254740992) ->
  (k < len)%nat -> INR len <= 4294967296 ->
  let q := fl (fl (INR k / INR len) * INR CONFIG.PARTICLE_COUNT) in
  0 <= q < 450
  /\ Rabs (q - INR k * 450 / INR len) <= / 4398046511104.
Proof.
  intros Hmono H0 Herr Hk Hlen q. unfold q. rewrite INR_PARTICLE_COUNT.
  destruct (ratio_bounds k len Hk Hlen) as [Hr Hr1].
  assert (Hp : 0 < INR len) by (apply lt_0_INR; lia).
  replace (INR k * 450 / INR len) with (INR k / INR len * 450)
    by (field; lra).
  set (r := INR k / INR len) in *.
  destruct k as [| k'].
  - assert (E : r = 0) by (unfold r; cbn [INR]; field; lra).
    rewrite E, H0, Rmult_0_l, H0, Rminus_diag, Rabs_R0. lra.
  - assert (Hlow : / 4294967296 <= r) by (apply Hr1; lia).
    assert (Ha := Herr r ltac:(lra)). apply Rabs_between in Ha.
    set (a := fl r) in *.
    assert (Hb := Herr (a * 450) ltac:(lra)). apply Rabs_between in Hb.
    set (b := fl (a * 450)) in *.
    split; [lra |]. apply Rabs_le. lra.
Qed.

Lemma scaled_radius (v : Vector3.t) (s : R) :
  0 <= s ->
  Vector3.radius (Vector3.multiplyScalar v s) = s * Vector3.radius v.
Proof.
  intros Hs. unfold Vector3.radius, Vector3.multiplyScalar.
  cbn [Vector3.x Vector3.z].
  replace (Vector3.x v * s * (Vector3.x v * s)
           + Vector3.z v * s * (Vector3.z v * s))
    with (Rsqr s * (Vector3.x v * Vector3.x v + Vector3.z v * Vector3.z v))
    by (unfold Rsqr; ring).
  rewrite sqrt_mult.
  - rewrite sqrt_Rsqr_abs, Rabs_right; [reflexivity | lra].
  - apply Rle_0_sqr.
  - assert (H := Rle_0_sqr (Vector3.x v)).
    assert (H0 := Rle_0_sqr (Vector3.z v)). unfold Rsqr in *. lra.
Qed.

Lemma Some_inj {A : Type} (a b : A) : Some a = Some b -> a = b.
Proof. congruence. Qed.

Lemma nth_error_seq0 (len k : nat) :
  (k < len)%nat -> nth_error (seq 0 len) k = Some k.
Proof.
  intros H.
  rewrite (nth_error_nth' (seq 0 len) 0%nat) by now rewrite length_seq.
  now rewrite seq_nth.
Qed.

(** X4. The photo at position [k] of [len] urls is placed at the tree
    index [t], the floor of the product [(k/len) * 450] as doubles compute
    it. For a rounding [fl] that is monotone, keeps zero and has the
    relative error [2^-53] of doubles, and for at most [2^32] urls: the
    rounded product is within [2^-42] of the exact one, so [t] brackets it
    up to that error (and can fall one below the floor of the exact
    product, as 229 for 23 of 45); [t] lies in [[0, 450)] and does not
    decrease with [k]; the tree target is 1.3 times the tree position of
    [t], so its radius is positive and exceeds the radius of the ornament
    cone at the same height by 0.75: the photo sits outside the surface of
    the tree. *)
Theorem X4_photo_tree_placement :
  forall (fl : R -> R) (urls : list string) (g : Js.Rng) (k : nat),
    (forall x y, x <= y -> fl x <= fl y) ->
    fl 0 = 0 ->
    (forall x, / 1099511627776 <= x <= 1099511627776 ->
               Rabs (fl x - x) <= x / 9007199254740992) ->
    (k < List.length urls)%nat -> INR (List.length urls) <= 4294967296 ->
    let len := List.length urls in
    let t (j : nat) :=
      Js.floor (fl (fl (INR j / INR len) * INR CONFIG.PARTICLE_COUNT)) in
    exists p,
      nth_error (fst (GeometryService.processPhotos fl urls g)) k = Some p
      /\ (0 <= t k < 450)%Z
      /\ IZR (t k) <= INR k * 450 / INR len + / 4398046511104
      /\ INR k * 450 / INR len - / 4398046511104 < IZR (t k) + 1
      /\ (forall j, (k <= j)%nat -> (t k <= t j)%Z)
      /\ ph_initialPos p
         = Vector3.multiplyScalar
             (GeometryService.calculateTreePosition (IZR (t k)) 450) 1.3
      /\ Vector3.y (ph_initialPos p) = 1.3 * (IZR (t k) / 450 * 14 - 7)
      /\ Vector3.radius (ph_initialPos p) = 6.5 * (1 - IZR (t k) / 450)
      /\ Vector3.radius (ph_initialPos p)
         = CONFIG.TREE_RADIUS
           * (1 / 2 - Vector3.y (ph_initialPos p) / CONFIG.TREE_HEIGHT)
           + 0.75.
Proof.
  intros fl urls g k Hmono H0 Herr Hk Hlen len t.
  destruct (processPhotos_from_shape fl (List.length urls) urls 0 g)
    as (H1 & _ & H3 & _).
  fold (GeometryService.processPhotos fl urls g) in H1, H3.
  set (photos := fst (GeometryService.processPhotos fl urls g)) in *.
  fold len in H3.
  assert (HL : List.length photos = len).
  { unfold len. transitivity (List.length (map ph_url photos)).
    - symmetry. apply length_map.
    - now rewrite H1. }
  destruct (nth_error photos k) as [p |] eqn:E.
  2:{ apply nth_error_None in E. lia. }
  assert (Hpos : ph_initialPos p
                 = Vector3.multiplyScalar
                     (GeometryService.calculateTreePosition (IZR (t k)) 450)
                     1.3).
  { assert (A := map_nth_error ph_initialPos k photos E).
    rewrite H3 in A.
    rewrite (map_nth_error _ k (seq 0 len) (nth_error_seq0 len k Hk)) in A.
    apply Some_inj in A. rewrite <- A. unfold t.
    now rewrite INR_PARTICLE_COUNT. }
  destruct (rounded_product fl k len Hmono H0 Herr Hk Hlen) as [Hq Hd].
  set (q := fl (fl (INR k / INR len) * INR CONFIG.PARTICLE_COUNT)) in *.
  assert (Hfl : IZR (t k) <= q < IZR (t k) + 1).
  { unfold t. fold q. unfold Js.floor.
    destruct (base_Int_part q) as [L U]. lra. }
  assert (Ht : (0 <= t k < 450)%Z).
  { split.
    - assert (H : (-1 < t k)%Z) by (apply lt_IZR; lra). lia.
    - apply lt_IZR. lra. }
  assert (Hlenp : 0 < INR len) by (apply lt_0_INR; lia).
  assert (HtR : 0 <= IZR (t k) < 450).
  { split; [apply IZR_le | apply IZR_lt]; lia. }
  assert (Hrad : Vector3.radius (ph_initialPos p)
                 = 6.5 * (1 - IZR (t k) / 450)).
  { rewrite Hpos, scaled_radius by lra.
    rewrite tree_radius by exact HtR.
    unfold CONFIG.TREE_RADIUS. lra. }
  assert (Hy : Vector3.y (ph_initialPos p) = 1.3 * (IZR (t k) / 450 * 14 - 7)).
  { rewrite Hpos. cbn. unfold CONFIG.TREE_HEIGHT. lra. }
  apply Rabs_between in Hd.
  exists p. split; [reflexivity |]. split; [exact Ht |].
  split; [lra |]. split; [lra |].
  split.
  { intros j Hj. unfold t. apply floor_mono, Hmono.
    apply Rmult_le_compat_r; [rewrite INR_PARTICLE_COUNT; lra |].
    apply Hmono.
    assert (INR k <= INR j) by now apply le_INR.
    unfold Rdiv. apply Rmult_le_compat_r; [| assumption].
    left. now apply Rinv_0_lt_compat. }
  split; [exact Hpos |]. split; [exact Hy |]. split; [exact Hrad |].
  rewrite Hrad, Hy. unfold CONFIG.TREE_RADIUS, CONFIG.TREE_HEIGHT. lra.
Qed.

Lemma roundDown_rounding :
  (forall x y, x <= y -> roundDown x <= roundDown y)
  /\ roundDown 0 = 0
  /\ (forall x, / 1099511627776 <= x <= 1099511627776 ->
                Rabs (roundDown x - x) <= x / 9007199254740992).
Proof.
  unfold roundDown. split; [| split].
  - intros x y H. lra.
  - lra.
  - intros x H. apply Rabs_le. lra.
Qed.

Lemma X4_photo_tree_placement_witness :
  Js.floor
    (roundDown (roundDown (INR 23 / INR 45) * INR CONFIG.PARTICLE_COUNT))
  = 229%Z
  /\ exists p,
       nth_error
         (fst (GeometryService.processPhotos roundDown (repeat "a"%string 45)
                 (Js.const 0))) 23 = Some p
       /\ ph_initialPos p
          = Vector3.multiplyScalar
              (GeometryService.calculateTreePosition
                 (IZR (Js.floor
                         (roundDown (roundDown (INR 23 / INR 45)
                                     * INR CONFIG.PARTICLE_COUNT)))) 450)
              1.3
       /\ Vector3.radius (ph_initialPos p)
          = CONFIG.TREE_RADIUS
            * (1 / 2 - Vector3.y (ph_initialPos p) / CONFIG.TREE_HEIGHT)
            + 0.75.
Proof.
  assert (E23 : INR 23 = 23) by (rewrite INR_IZR_INZ; reflexivity).
  assert (E45 : INR 45 = 45) by (rewrite INR_IZR_INZ; reflexivity).
  split.
  - apply floor_unique. rewrite INR_PARTICLE_COUNT, E23, E45.
    unfold roundDown. lra.
  - destruct roundDown_rounding as (Hm & H0 & He).
    destruct (X4_photo_tree_placement roundDown (repeat "a"%string 45)
                (Js.const 0) 23 Hm H0 He)
      as (p & Hp & _ & _ & _ & _ & Hpos & _ & _ & Hr).
    + rewrite repeat_length. lia.
    + rewrite repeat_length, E45. lra.
    + rewrite repeat_length in Hpos.
      exists p. split; [exact Hp |]. split; [exact Hpos | exact Hr].
Defined.

Lemma tree_point_bounds (index total : R) :
  0 <= index < total ->
  let p := GeometryService.calculateTreePosition index total in
  - 7 <= Vector3.y p < 7
  /\ 0 < Vector3.radius p <= 5
  /\ Rabs (Vector3.x p) <= 5 /\ Rabs (Vector3.z p) <= 5
  /\ Vector3.radius p
     = CONFIG.TREE_RADIUS * (1 / 2 - Vector3.y p / CONFIG.TREE_HEIGHT).
Proof.
  intros H p.
  assert (Hq : 0 <= index / total < 1).
  { destruct H as [H0 H1]. split.
    - apply Rmult_le_pos; [exact H0 |]. left. apply Rinv_0_lt_compat. lra.
    - apply (Rmult_lt_reg_r total); [lra |].
      unfold Rdiv. rewrite Rmult_assoc, Rinv_l; lra. }
  assert (Hy := tree_y index total). assert (Hr := tree_radius index total H).
  fold p in Hy, Hr. unfold CONFIG.TREE_HEIGHT, CONFIG.TREE_RADIUS in *.
  assert (Hx : Vector3.x p = cos (index * 0.5) * Vector3.radius p).
  { rewrite Hr. unfold p. cbn. unfold CONFIG.TREE_HEIGHT, CONFIG.TREE_RADIUS.
    f_equal. field. lra. }
  assert (Hz : Vector3.z p = sin (index * 0.5) * Vector3.radius p).
  { rewrite Hr. unfold p. cbn. unfold CONFIG.TREE_HEIGHT, CONFIG.TREE_RADIUS.
    f_equal. field. lra. }
  assert (Hc := COS_bound (index * 0.5)).
  assert (Hs := SIN_bound (index * 0.5)).
  split; [lra |]. split; [lra |].
  split; [| split].
  - rewrite Hx. apply Rabs_le. nra.
  - rewrite Hz. apply Rabs_le. nra.
  - lra.
Qed.

(** X5. Every tree target that [generateParticles] assigns lies on the
    cone of height 14 and base radius 5: its height is in [[-7, 7)], its
    distance from the axis is the radius of the cone at that height,
    positive and at most 5, and so both horizontal coordinates are within
    5 of the axis. *)
Theorem X5_tree_targets_on_cone :
  forall (count : nat) (g : Js.Rng), Js.wf g ->
    Forall (fun p =>
              let v := pd_initialPos p in
              - 7 <= Vector3.y v < 7
              /\ 0 < Vector3.radius v <= 5
              /\ Rabs (Vector3.x v) <= 5 /\ Rabs (Vector3.z v) <= 5
              /\ Vector3.radius v
                 = CONFIG.TREE_RADIUS
                   * (1 / 2 - Vector3.y v / CONFIG.TREE_HEIGHT))
      (fst (GeometryService.generateParticles count g)).
Proof.
  intros count g Hg.
  destruct (generateParticles_from_shape count count 0 g Hg) as (_ & H2 & _).
  fold (GeometryService.generateParticles count g) in H2.
  apply (Forall_map pd_initialPos
           (fun v => - 7 <= Vector3.y v < 7
                     /\ 0 < Vector3.radius v <= 5
                     /\ Rabs (Vector3.x v) <= 5 /\ Rabs (Vector3.z v) <= 5
                     /\ Vector3.radius v
                        = CONFIG.TREE_RADIUS
                          * (1 / 2 - Vector3.y v / CONFIG.TREE_HEIGHT))).
  rewrite H2. apply Forall_map, Forall_forall.
  intros k Hk. apply in_seq in Hk.
  apply tree_point_bounds. split; [apply pos_INR | apply lt_INR; lia].
Qed.

Lemma X5_tree_targets_on_cone_witness :
  Forall (fun p => - 7 <= Vector3.y (pd_initialPos p) < 7)
    (fst (GeometryService.generateParticles 4 (Js.const (1 / 2)))).
Proof.
  assert (H := X5_tree_targets_on_cone 4 (Js.const (1 / 2))
                 (wf_const (1 / 2) ltac:(lra))).
  apply Forall_impl with (2 := H). intros p Hp. apply Hp.
Defined.

(* ================================================================== *)
(** * Further properties of the particles of the stand-alone scene *)
(* ================================================================== *)

Lemma randomized_scatter (isDust : bool) (g : Js.Rng) :
  Js.wf g ->
  Vector3.length (snd (fst (App.calculatePositions isDust g)))
  = (if isDust then 12 + g 3%nat * 20 else 8 + g 3%nat * 12).
Proof.
  intros Hg. assert (H3 := Hg 3%nat).
  set (rScatter := if isDust then 12 + g 3%nat * 20 else 8 + g 3%nat * 12).
  assert (Hr : 0 <= rScatter) by (unfold rScatter; destruct isDust; lra).
  unfold App.calculatePositions, Vector3.length, Js.rbind, Js.random, Js.ret.
  cbn. fold rScatter. rewrite sphere_radius. now apply Rabs_right, Rle_ge.
Qed.

Lemma calculatePositions_wf (isDust : bool) (g : Js.Rng) :
  Js.wf g -> Js.wf (snd (App.calculatePositions isDust g)).
Proof. intros Hg k. apply Hg. Qed.

(** X6. The targets that [calculatePositions] draws are bounded: the tree
    target has its height in [[-12, 12)] and its distance from the axis in
    [[0.4, 9.6)]; the scatter target lies in the shell of radii 8 and 20,
    and for dust in the shell of radii 12 and 32, so no scatter target is
    closer than 8 to the centre. *)
Theorem X6_calculatePositions_bounds :
  forall (isDust : bool) (g : Js.Rng), Js.wf g ->
    let pos := fst (App.calculatePositions isDust g) in
    - 12 <= Vector3.y (fst pos) < 12
    /\ 0.4 <= Vector3.radius (fst pos) < 9.6
    /\ (if isDust then 12 <= Vector3.length (snd pos) < 32
        else 8 <= Vector3.length (snd pos) < 20)
    /\ 8 <= Vector3.length (snd pos).
Proof.
  intros isDust g Hg pos.
  destruct (randomized_tree isDust g Hg) as (Ht & Hy & Hr & Hmin).
  assert (Hs := randomized_scatter isDust g Hg).
  fold pos in Hy, Hr, Hmin, Hs.
  assert (H2 := Hg 2%nat). assert (H3 := Hg 3%nat).
  set (t := Js.pow (g 0%nat) 0.8) in *.
  unfold App.CONFIG.treeHeight, App.CONFIG.treeRadius in *.
  split; [rewrite Hy; lra |]. split.
  - split; [exact Hmin |]. rewrite Hr.
    assert (Rmax (8 * (1 - t)) 0.5 <= 8) by (apply Rmax_lub; lra).
    assert (0.5 <= Rmax (8 * (1 - t)) 0.5) by apply Rmax_r.
    nra.
  - rewrite Hs. destruct isDust; lra.
Qed.

Lemma X6_calculatePositions_bounds_witness :
  8 <= Vector3.length
         (snd (fst (App.calculatePositions false (Js.const (1 / 2))))).
Proof.
  destruct (X6_calculatePositions_bounds false (Js.const (1 / 2)))
    as (_ & _ & _ & H).
  - apply wf_const. lra.
  - exact H.
Defined.

Lemma newParticle_eq (mesh : App.Mesh) (type : App.ParticleKind)
  (isDust : bool) (g : Js.Rng) :
  App.newParticle mesh type isDust g
  = (let speedMult :=
       if App.ParticleKind_eq_dec type App.PHOTO then 0.3 else 2.0 in
     let g3 := fun n => g (S (S (S n))) in
     App.mkParticle mesh type isDust
       (fst (fst (App.calculatePositions isDust g3)))
       (snd (fst (App.calculatePositions isDust g3)))
       (Vector3.x (App.scale mesh))
       (Vector3.new ((g 0%nat - 0.5) * speedMult)
          ((g 1%nat - 0.5) * speedMult) ((g 2%nat - 0.5) * speedMult)),
     fun n => g (9 + n)%nat).
Proof. reflexivity. Qed.

(** X7. [new Particle(mesh, type, isDust)] keeps the mesh and the kind it
    is given and takes its base scale from the mesh. Each component of its
    spin rate lies in [[-1, 1)], and for a PHOTO in [[-0.15, 0.15)]: photos
    spin at most 0.15 times as fast as the fastest ornament. *)
Theorem X7_newParticle :
  forall (mesh : App.Mesh) (type : App.ParticleKind) (isDust : bool)
         (g : Js.Rng),
    Js.wf g ->
    let p := fst (App.newParticle mesh type isDust g) in
    let bound := if App.ParticleKind_eq_dec type App.PHOTO then 0.15 else 1 in
    App.mesh p = mesh /\ App.type p = type /\ App.isDust p = isDust
    /\ App.baseScale p = Vector3.x (App.scale mesh)
    /\ - bound <= Vector3.x (App.spinSpeed p) < bound
    /\ - bound <= Vector3.y (App.spinSpeed p) < bound
    /\ - bound <= Vector3.z (App.spinSpeed p) < bound.
Proof.
  intros mesh type isDust g Hg p bound. unfold p, bound.
  rewrite newParticle_eq. cbn.
  assert (H0 := Hg 0%nat). assert (H1 := Hg 1%nat). assert (H2 := Hg 2%nat).
  do 4 (split; [reflexivity |]).
  destruct (App.ParticleKind_eq_dec type App.PHOTO); repeat split; lra.
Qed.

Lemma X7_newParticle_witness :
  - 0.15 <= Vector3.x
              (App.spinSpeed
                 (fst (App.newParticle sampleMesh App.PHOTO false
                         (Js.const (1 / 4)))))
  < 0.15.
Proof.
  destruct (X7_newParticle sampleMesh App.PHOTO false (Js.const (1 / 4)))
    as (_ & _ & _ & _ & H & _).
  - apply wf_const. lra.
  - destruct (App.ParticleKind_eq_dec App.PHOTO App.PHOTO) as [_ | N];
      [lra | congruence].
Defined.

Section ScaleFacts.

Variable Matrix4 : Type.
Variable applyInverse : Matrix4 -> Vector3.t -> Vector3.t.
Variable lookAt : App.Mesh -> Matrix4 -> Vector3.t -> Vector3.t.

Lemma frames_static (n : nat) (this : App.Particle) (dt : R)
  (mode : App.Mode) (focus : option nat) (cam : Vector3.t)
  (clock : nat -> R) (mw : Matrix4) :
  let this' :=
    App.frames Matrix4 applyInverse lookAt n this dt mode focus cam clock mw
  in
  App.id (App.mesh this') = App.id (App.mesh this)
  /\ App.type this' = App.type this
  /\ App.isDust this' = App.isDust this
  /\ App.posTree this' = App.posTree this
  /\ App.posScatter this' = App.posScatter this
  /\ App.baseScale this' = App.baseScale this
  /\ App.spinSpeed this' = App.spinSpeed this.
Proof.
  induction n as [| n IH]; [now cbn |].
  cbn [App.frames].
  destruct (update_static Matrix4 applyInverse lookAt
              (App.frames Matrix4 applyInverse lookAt n this dt mode focus
                 cam clock mw) dt mode focus cam (clock n) mw)
    as (H1 & H2 & H3 & H4 & H5 & H6 & H7).
  cbv zeta in IH. destruct IH as (I1 & I2 & I3 & I4 & I5 & I6 & I7).
  cbv zeta. rewrite H1, H2, H3, H4, H5, H6, H7. auto 10.
Qed.

Lemma targetScale_static (p q : App.Particle) (mode : App.Mode)
  (focus : option nat) (clock : R) :
  App.id (App.mesh p) = App.id (App.mesh q) ->
  App.type p = App.type q -> App.isDust p = App.isDust q ->
  App.baseScale p = App.baseScale q ->
  App.targetScale p mode focus clock = App.targetScale q mode focus clock.
Proof.
  intros H1 H2 H3 H4. unfold App.targetScale, App.isMesh.
  now rewrite H1, H2, H3, H4.
Qed.

Lemma targetScale_steady (this : App.Particle) (mode : App.Mode)
  (focus : option nat) (c c' : R) :
  App.isDust this = false \/ mode = App.TREE ->
  App.targetScale this mode focus c = App.targetScale this mode focus c'.
Proof.
  intros [H | H]; unfold App.targetScale.
  - now rewrite H.
  - rewrite H. now destruct (App.isDust this).
Qed.

Lemma frames_scale (n : nat) (this : App.Particle) (dt : R)
  (mode : App.Mode) (focus : option nat) (cam : Vector3.t)
  (clock : nat -> R) (mw : Matrix4) :
  App.isDust this = false \/ mode = App.TREE ->
  let s := App.targetScale this mode focus 0 in
  let sc :=
    App.scale
      (App.mesh
         (App.frames Matrix4 applyInverse lookAt n this dt mode focus cam
            clock mw)) in
  Vector3.x sc - s
  = (1 - 4 * dt) ^ n * (Vector3.x (App.scale (App.mesh this)) - s)
  /\ Vector3.y sc - s
     = (1 - 4 * dt) ^ n * (Vector3.y (App.scale (App.mesh this)) - s)
  /\ Vector3.z sc - s
     = (1 - 4 * dt) ^ n * (Vector3.z (App.scale (App.mesh this)) - s).
Proof.
  intros Hs s. induction n as [| n (Ix & Iy & Iz)].
  - cbn. repeat split; ring.
  - cbn [App.frames pow].
    set (q := App.frames Matrix4 applyInverse lookAt n this dt mode focus cam
                clock mw) in *.
    destruct (frames_static n this dt mode focus cam clock mw)
      as (H1 & H2 & H3 & _ & _ & H6 & _). fold q in H1, H2, H3, H6.
    assert (E : App.targetScale q mode focus (clock n) = s).
    { unfold s.
      rewrite (targetScale_static q this mode focus (clock n) H1 H2 H3 H6).
      now apply targetScale_steady. }
    unfold App.update. cbn [App.mesh App.scale]. rewrite E.
    unfold Vector3.lerp. cbn [Vector3.x Vector3.y Vector3.z].
    fold s. cbv zeta in Ix, Iy, Iz.
    repeat split;
      [rewrite Rmult_assoc, <- Ix | rewrite Rmult_assoc, <- Iy
       | rewrite Rmult_assoc, <- Iz]; ring.
Qed.

End ScaleFacts.

(** X8. The scale of a particle eases to its target scale: in every frame,
    whatever the mode and the time step, the tick multiplies the offset of
    each of the three components from the target scale of that frame by
    [1 - 4*dt], and a uniform scale stays uniform. For a particle that is
    not dust, and for dust in TREE mode, the target does not depend on the
    clock, so with [0 < 4*dt < 2] the scale comes arbitrarily close to it
    over the frames; in TREE mode dust fades to scale 0. *)
Theorem X8_scale_easing :
  forall (Matrix4 : Type)
         (applyInverse : Matrix4 -> Vector3.t -> Vector3.t)
         (lookAt : App.Mesh -> Matrix4 -> Vector3.t -> Vector3.t)
         (this : App.Particle) (dt : R) (mode : App.Mode)
         (focus : option nat) (cam : Vector3.t) (clock : nat -> R)
         (mw : Matrix4),
    let sc (n : nat) :=
      App.scale
        (App.mesh
           (App.frames Matrix4 applyInverse lookAt n this dt mode focus cam
              clock mw)) in
    (forall n : nat,
        let s := App.targetScale this mode focus (clock n) in
        Vector3.x (sc (S n)) - s = (1 - 4 * dt) * (Vector3.x (sc n) - s)
        /\ Vector3.y (sc (S n)) - s = (1 - 4 * dt) * (Vector3.y (sc n) - s)
        /\ Vector3.z (sc (S n)) - s = (1 - 4 * dt) * (Vector3.z (sc n) - s)
        /\ (Vector3.x (sc n) = Vector3.y (sc n)
            /\ Vector3.y (sc n) = Vector3.z (sc n) ->
            Vector3.x (sc (S n)) = Vector3.y (sc (S n))
            /\ Vector3.y (sc (S n)) = Vector3.z (sc (S n))))
    /\ (0 < 4 * dt < 2 ->
        App.isDust this = false \/ mode = App.TREE ->
        let s := App.targetScale this mode focus 0 in
        (App.isDust this = true -> s = 0)
        /\ forall eps, 0 < eps ->
             exists N, forall n, (N <= n)%nat ->
               Rabs (Vector3.x (sc n) - s) < eps
               /\ Rabs (Vector3.y (sc n) - s) < eps
               /\ Rabs (Vector3.z (sc n) - s) < eps).
Proof.
  intros Matrix4 applyInverse lookAt this dt mode focus cam clock mw sc.
  split.
  - intros n s. unfold sc. cbn [App.frames].
    set (q := App.frames Matrix4 applyInverse lookAt n this dt mode focus cam
                clock mw).
    destruct (frames_static Matrix4 applyInverse lookAt n this dt mode focus
                cam clock mw) as (H1 & H2 & H3 & _ & _ & H6 & _).
    fold q in H1, H2, H3, H6.
    assert (E : App.targetScale q mode focus (clock n) = s)
      by exact (targetScale_static q this mode focus (clock n) H1 H2 H3 H6).
    unfold App.update. cbn [App.mesh App.scale]. rewrite E.
    unfold Vector3.lerp. cbn [Vector3.x Vector3.y Vector3.z].
    split; [ring |]. split; [ring |]. split; [ring |].
    intros [E1 E2]. rewrite <- E2, <- E1. split; reflexivity.
  - intros Hdt Hs s. split.
    + intros Hd. destruct Hs as [Hs | Hs]; [congruence |].
      unfold s, App.targetScale. now rewrite Hd, Hs.
    + intros eps He.
      set (k := Rabs (1 - 4 * dt)).
      assert (Hk : 0 <= k < 1) by now apply contraction_factor.
      set (m := App.scale (App.mesh this)).
      set (d0 := Rabs (Vector3.x m - s) + Rabs (Vector3.y m - s)
                 + Rabs (Vector3.z m - s)).
      assert (Hx := Rabs_pos (Vector3.x m - s)).
      assert (Hy := Rabs_pos (Vector3.y m - s)).
      assert (Hz := Rabs_pos (Vector3.z m - s)).
      destruct (geometric_vanishes k d0 eps Hk) as [N HN];
        [unfold d0; lra | exact He |].
      exists N. intros n Hn. specialize (HN n Hn).
      destruct (frames_scale Matrix4 applyInverse lookAt n this dt mode focus
                  cam clock mw Hs) as (Ex & Ey & Ez).
      fold s in Ex, Ey, Ez. fold (sc n) in Ex, Ey, Ez. fold m in Ex, Ey, Ez.
      rewrite Ex, Ey, Ez, !Rabs_mult, <- !RPow_abs. fold k.
      assert (Hpow : 0 <= k ^ n) by (apply pow_le, Hk).
      unfold d0 in HN. repeat split; nra.
Qed.

Lemma X8_scale_easing_witness :
  let sc (n : nat) :=
    App.scale
      (App.mesh
         (App.frames unit idInverse idLookAt n sampleDust (1 / 8)
            App.SCATTER None (Vector3.new 0 0 18) (fun n => INR n) tt)) in
  let s := App.targetScale sampleDust App.SCATTER None (INR 1) in
  (Vector3.x (sc 2%nat) - s = (1 - 4 * (1 / 8)) * (Vector3.x (sc 1%nat) - s)
   /\ Vector3.y (sc 2%nat) - s = (1 - 4 * (1 / 8)) * (Vector3.y (sc 1%nat) - s)
   /\ Vector3.z (sc 2%nat) - s = (1 - 4 * (1 / 8)) * (Vector3.z (sc 1%nat) - s)
   /\ Vector3.x (sc 2%nat) = Vector3.y (sc 2%nat)
   /\ Vector3.y (sc 2%nat) = Vector3.z (sc 2%nat))
  /\ App.targetScale sampleDust App.TREE None 0 = 0.
Proof.
  intros sc s. split.
  - destruct (X8_scale_easing unit idInverse idLookAt sampleDust (1 / 8)
                App.SCATTER None (Vector3.new 0 0 18) (fun n => INR n) tt)
      as [H _].
    destruct (H 0%nat) as (_ & _ & _ & U0).
    destruct (H 1%nat) as (Hx & Hy & Hz & U1).
    split; [exact Hx |]. split; [exact Hy |]. split; [exact Hz |].
    apply U1. apply U0. split; reflexivity.
  - destruct (X8_scale_easing unit idInverse idLookAt sampleDust (1 / 8)
                App.TREE None (Vector3.new 0 0 18) (fun n => INR n) tt)
      as [_ H].
    destruct H as [H0 _]; [lra | right; reflexivity |].
    apply H0. reflexivity.
Defined.

(* ================================================================== *)
(** * Further properties of gestures and modes *)
(* ================================================================== *)

Lemma processGestures_short_rng (lm : list Landmark)
  (rest : list (list Landmark)) (ps : list App.Particle) (S : App.STATE)
  (g : Js.Rng) :
  (List.length lm < 21)%nat ->
  snd (App.processGestures (mkResult (Some (lm :: rest))) ps S g) = g.
Proof.
  intros H.
  do 21 (destruct lm as [| ? lm]; [reflexivity |]).
  simpl in H. lia.
Qed.

Lemma focusOk_same (ps : list App.Particle) (S S' : App.STATE) :
  App.mode S' = App.mode S -> App.focusTarget S' = App.focusTarget S ->
  focusOk ps S -> focusOk ps S'.
Proof. unfold focusOk. intros -> ->. auto. Qed.

Lemma processGestures_keeps_focusOk (r : HandLandmarkerResult)
  (ps : list App.Particle) (S : App.STATE) (g : Js.Rng) :
  Js.wf g -> focusOk ps S ->
  focusOk ps (fst (fst (App.processGestures r ps S g)))
  /\ Js.wf (snd (App.processGestures r ps S g)).
Proof.
  intros Hg Hok. destruct r as [[[| lm rest] |]].
  - rewrite processGestures_absent by (right; reflexivity).
    split; [| exact Hg]. now apply (focusOk_same ps S).
  - destruct (le_lt_dec 21 (List.length lm)) as [H | H].
    + destruct (processGestures_full lm rest ps S g H Hg) as (_ & Hw & Hs).
      split; [| exact Hw].
      destruct (classify 0.05 0.25 0.4 lm).
      * rewrite Hs. now apply (focusOk_same ps S).
      * rewrite Hs. exact I.
      * rewrite Hs. exact I.
      * destruct (App.Mode_eq_dec (App.mode S) App.FOCUS) as [Hm | Hm].
        -- rewrite Hs. now apply (focusOk_same ps S).
        -- assert (Hn : App.focusTarget S = None).
           { unfold focusOk in Hok. destruct (App.focusTarget S); [| easy].
             destruct Hok as [Hf _]. contradiction. }
           destruct (App.photosOf ps).
           ++ rewrite Hs. unfold focusOk. cbn. now rewrite Hn.
           ++ destruct Hs as (q & Hin & Ht & Hs). rewrite Hs.
              unfold focusOk. cbn. split; [reflexivity |]. now exists q.
    + destruct (processGestures_short lm rest ps S g H) as (_ & Hm & Hf & _).
      rewrite processGestures_short_rng by exact H.
      split; [| exact Hg]. now apply (focusOk_same ps S).
  - rewrite processGestures_absent by (left; reflexivity).
    split; [| exact Hg]. now apply (focusOk_same ps S).
Qed.

Lemma processAll_cons (r : HandLandmarkerResult)
  (results : list HandLandmarkerResult) (ps : list App.Particle)
  (S : App.STATE) (g : Js.Rng) :
  snd (fst (App.processGestures r ps S g)) = Js.Normal tt ->
  snd (fst (App.processAll (r :: results) ps S g))
  = snd (fst (App.processAll results ps
                (fst (fst (App.processGestures r ps S g)))
                (snd (App.processGestures r ps S g)))).
Proof.
  intros H. cbn [App.processAll]. unfold Js.rbind at 1.
  destruct (App.processGestures r ps S g) as [[S1 c] g1].
  cbn [fst snd] in *. subst c. unfold Js.rbind.
  destruct (App.processAll results ps S1 g1) as [[ms S2] g2].
  reflexivity.
Qed.

Lemma sampleRegistry_pinch (g : Js.Rng) :
  Js.wf g ->
  let r :=
    App.processGestures (oneHand (sampleHand 0.5 0 0)) sampleRegistry
      App.STATE_init g in
  snd (fst r) = Js.Normal tt
  /\ App.mode (fst (fst r)) = App.FOCUS
  /\ App.focusTarget (fst (fst r)) = Some (App.id (App.mesh samplePhoto)).
Proof.
  intros Hg r.
  assert (Hl : (21 <= List.length (sampleHand 0.5 0 0))%nat)
    by (rewrite sampleHand_length; lia).
  destruct (processGestures_full (sampleHand 0.5 0 0) [] sampleRegistry
              App.STATE_init g Hl Hg) as (Hc & _ & Hs).
  fold r in Hc. split; [exact Hc |].
  rewrite sampleHand_classify in Hs by lra.
  destruct (Rlt_dec 0 0.05) as [_ | N]; [| lra].
  destruct (App.Mode_eq_dec (App.mode App.STATE_init) App.FOCUS)
    as [N | _]; [discriminate N |].
  change (App.photosOf sampleRegistry) with [samplePhoto] in Hs.
  destruct Hs as (p & Hin & Ht & Hs).
  change (fst (fst r)
          = App.set_focusTarget
              (App.set_mode
                 (App.set_hand App.STATE_init
                    (App.mkHand true
                       ((lx (at_ (sampleHand 0.5 0 0) 9) - 0.5) * 2)
                       ((ly (at_ (sampleHand 0.5 0 0) 9) - 0.5) * 2)))
                 App.FOCUS)
              (Some (App.id (App.mesh p)))) in Hs.
  rewrite Hs. split; [reflexivity |].
  destruct Hin as [<- | [<- | []]]; [discriminate Ht | reflexivity].
Qed.

(** X10. Along any run of [processGestures] from the initial state, over
    results of every shape (no hand, a full hand, a hand with missing
    points) and up to the first exception, a focus target is held only
    while the mode is FOCUS, and it is the mesh of a PHOTO particle of the
    registry: outside FOCUS the target is unset. *)
Theorem X10_focus_target_invariant :
  forall (results : list HandLandmarkerResult) (ps : list App.Particle)
         (S : App.STATE) (g : Js.Rng),
    Js.wf g -> focusOk ps S ->
    let S' := snd (fst (App.processAll results ps S g)) in
    focusOk ps App.STATE_init
    /\ focusOk ps S'
    /\ (App.mode S' <> App.FOCUS -> App.focusTarget S' = None).
Proof.
  intros results ps S g Hg Hok S'.
  split; [exact I |].
  assert (H : focusOk ps S').
  { unfold S'. clear S'. revert S g Hg Hok.
    induction results as [| r results IH]; intros S g Hg Hok; [exact Hok |].
    cbn [App.processAll]. unfold Js.rbind at 1.
    destruct (processGestures_keeps_focusOk r ps S g Hg Hok) as [Hok' Hg'].
    destruct (App.processGestures r ps S g) as [[S1 c] g1].
    cbn [fst snd] in *. destruct c as [[] | e]; [| exact Hok'].
    unfold Js.rbind. specialize (IH S1 g1 Hg' Hok').
    destruct (App.processAll results ps S1 g1) as [[ms S2] g2].
    exact IH. }
  split; [exact H |].
  intros Hm. unfold focusOk in H.
  destruct (App.focusTarget S'); [| reflexivity].
  destruct H as [H _]. contradiction.
Qed.

Lemma X10_focus_target_invariant_witness :
  let S' :=
    snd (fst (App.processAll
                [oneHand (sampleHand 0.5 0 0); mkResult None]
                sampleRegistry App.STATE_init (Js.const 0))) in
  App.mode S' = App.FOCUS
  /\ App.focusTarget S' = Some (App.id (App.mesh samplePhoto))
  /\ focusOk sampleRegistry S'.
Proof.
  intros S'.
  assert (Hg : Js.wf (Js.const 0)) by (apply wf_const; lra).
  destruct (X10_focus_target_invariant
              [oneHand (sampleHand 0.5 0 0); mkResult None]
              sampleRegistry App.STATE_init (Js.const 0) Hg I)
    as (_ & H & _).
  fold S' in H.
  assert (E : App.mode S' = App.FOCUS
              /\ App.focusTarget S' = Some (App.id (App.mesh samplePhoto))).
  { unfold S'.
    rewrite processAll_cons by now apply sampleRegistry_pinch.
    rewrite processAll_cons
      by (rewrite processGestures_absent by (left; reflexivity);
          reflexivity).
    rewrite processGestures_absent by (left; reflexivity).
    cbn [App.processAll Js.ret fst snd App.set_hand App.mode
         App.focusTarget].
    destruct (sampleRegistry_pinch (Js.const 0) Hg) as (_ & Hm & Hf).
    split; [exact Hm | exact Hf]. }
  destruct E as [Em Ef]. split; [exact Em |]. split; [exact Ef | exact H].
Defined.

Lemma at_inImage (lm : list Landmark) (i : nat) :
  inImage lm -> (i < List.length lm)%nat ->
  0 <= lx (at_ lm i) <= 1 /\ 0 <= ly (at_ lm i) <= 1.
Proof.
  intros H Hi. unfold inImage in H. rewrite Forall_forall in H.
  apply H. unfold at_. now apply nth_In.
Qed.

Lemma processGestures_hand (lm : list Landmark) (rest : list (list Landmark))
  (ps : list App.Particle) (S : App.STATE) (g : Js.Rng) :
  (21 <= List.length lm)%nat -> Js.wf g ->
  App.hand (fst (fst (App.processGestures (mkResult (Some (lm :: rest)))
                        ps S g)))
  = App.mkHand true ((lx (at_ lm 9) - 0.5) * 2) ((ly (at_ lm 9) - 0.5) * 2).
Proof.
  intros H Hg.
  destruct (processGestures_full lm rest ps S g H Hg) as (_ & _ & Hs).
  destruct (classify 0.05 0.25 0.4 lm).
  - now rewrite Hs.
  - now rewrite Hs.
  - now rewrite Hs.
  - destruct (App.Mode_eq_dec (App.mode S) App.FOCUS).
    + now rewrite Hs.
    + destruct (App.photosOf ps).
      * now rewrite Hs.
      * destruct Hs as (q & _ & _ & Hs). now rewrite Hs.
Qed.

Lemma sampleHand_inImage (w b p : R) :
  0 <= w -> 0 <= b -> 0 <= p -> w + b + p <= 1 -> inImage (sampleHand w b p).
Proof.
  intros Hw Hb Hp H1. unfold inImage, sampleHand.
  apply Forall_forall. intros l Hl. apply in_map_iff in Hl.
  destruct Hl as (i & <- & _).
  destruct (Nat.eqb i 4); [cbn; lra |].
  destruct (existsb (Nat.eqb i) [8; 12; 16; 20]%nat); cbn; lra.
Qed.

(** X11. When the landmarks of a full hand lie in the unit square of the
    image, the pointer stays in the square [[-1, 1] x [-1, 1]]: both the
    position that [detect] hands on and the hand position that
    [processGestures] stores. *)
Theorem X11_pointer_range :
  forall (lm : list Landmark) (rest : list (list Landmark)),
    (21 <= List.length lm)%nat -> inImage lm ->
    (exists hs : HandState,
        HandTracker.detect (mkResult (Some (lm :: rest))) = Js.Normal hs
        /\ - 1 <= px (position hs) <= 1 /\ - 1 <= py (position hs) <= 1)
    /\ (forall (ps : list App.Particle) (S : App.STATE) (g : Js.Rng),
          Js.wf g ->
          let h :=
            App.hand
              (fst (fst (App.processGestures (mkResult (Some (lm :: rest)))
                           ps S g))) in
          - 1 <= App.hand_x h <= 1 /\ - 1 <= App.hand_y h <= 1).
Proof.
  intros lm rest H Him. split.
  - eexists. split; [apply (detect_full lm rest H) |].
    cbn [position px py].
    destruct (at_inImage lm 0 Him) as [Hx Hy]; [lia |]. lra.
  - intros ps S g Hg h. unfold h.
    rewrite (processGestures_hand lm rest ps S g H Hg).
    cbn [App.hand_x App.hand_y].
    destruct (at_inImage lm 9 Him) as [Hx Hy]; [lia |]. lra.
Qed.

Lemma X11_pointer_range_witness :
  exists hs : HandState,
    HandTracker.detect (oneHand (sampleHand 0.25 0.3 0.3)) = Js.Normal hs
    /\ - 1 <= px (position hs) <= 1 /\ - 1 <= py (position hs) <= 1.
Proof.
  destruct (X11_pointer_range (sampleHand 0.25 0.3 0.3) []) as [H _].
  - rewrite sampleHand_length. lia.
  - apply sampleHand_inImage; lra.
  - exact H.
Defined.

Lemma at_shift (dx dy : R) (lm : list Landmark) (i : nat) :
  (i < List.length lm)%nat ->
  at_ (shift dx dy lm) i
  = mkLandmark (lx (at_ lm i) + dx) (ly (at_ lm i) + dy).
Proof.
  intros H. unfold at_, shift.
  set (f := fun l => mkLandmark (lx l + dx) (ly l + dy)).
  change (mkLandmark (lx (nth i lm (mkLandmark 0 0)) + dx)
            (ly (nth i lm (mkLandmark 0 0)) + dy))
    with (f (nth i lm (mkLandmark 0 0))).
  rewrite <- (map_nth f lm (mkLandmark 0 0) i).
  apply nth_indep. now rewrite length_map.
Qed.

Lemma shift_measures (dx dy : R) (lm : list Landmark) :
  (21 <= List.length lm)%nat ->
  pinchDistance (shift dx dy lm) = pinchDistance lm
  /\ spread (shift dx dy lm) = spread lm.
Proof.
  intros H. unfold pinchDistance, spread, distToWrist.
  rewrite !at_shift by lia. cbn [lx ly].
  split; repeat (f_equal; try ring).
Qed.

(** X12. The gesture does not depend on where in the image the hand is:
    moving every landmark of a full hand by the same vector leaves the
    gesture of [detect] and the mode decision of [processGestures] as they
    are, and moves the pointer of [detect] by minus twice that vector. *)
Theorem X12_gesture_translation_invariant :
  forall (lm : list Landmark) (rest : list (list Landmark)) (dx dy : R),
    (21 <= List.length lm)%nat ->
    (exists hs hs' : HandState,
        HandTracker.detect (mkResult (Some (lm :: rest))) = Js.Normal hs
        /\ HandTracker.detect (mkResult (Some (shift dx dy lm :: rest)))
           = Js.Normal hs'
        /\ gesture hs' = gesture hs
        /\ px (position hs') = px (position hs) - 2 * dx
        /\ py (position hs') = py (position hs) - 2 * dy)
    /\ (forall (ps : list App.Particle) (S : App.STATE) (g : Js.Rng),
          Js.wf g ->
          App.mode
            (fst (fst (App.processGestures
                         (mkResult (Some (shift dx dy lm :: rest))) ps S g)))
          = App.mode
              (fst (fst (App.processGestures (mkResult (Some (lm :: rest)))
                           ps S g)))).
Proof.
  intros lm rest dx dy H.
  assert (H' : (21 <= List.length (shift dx dy lm))%nat).
  { unfold shift. now rewrite length_map. }
  destruct (shift_measures dx dy lm H) as [Ep Es].
  assert (Ec : forall a b c,
             classify a b c (shift dx dy lm) = classify a b c lm).
  { intros a b c. unfold classify. now rewrite Ep, Es. }
  split.
  - do 2 eexists.
    split; [apply (detect_full lm rest H) |].
    split; [apply (detect_full (shift dx dy lm) rest H') |].
    cbn [gesture position px py]. rewrite Ec, at_shift by lia. cbn [lx ly].
    repeat split; lra.
  - intros ps S g Hg.
    destruct (processGestures_step lm rest ps S g H Hg) as (_ & _ & E1).
    destruct (processGestures_step (shift dx dy lm) rest ps S g H' Hg)
      as (_ & _ & E2).
    rewrite E1, E2, Ec. reflexivity.
Qed.

Lemma X12_gesture_translation_invariant_witness :
  exists hs hs' : HandState,
    HandTracker.detect (oneHand (sampleHand 0.25 0.3 0.3)) = Js.Normal hs
    /\ HandTracker.detect
         (oneHand (shift 0.1 0.2 (sampleHand 0.25 0.3 0.3))) = Js.Normal hs'
    /\ gesture hs' = gesture hs.
Proof.
  destruct (X12_gesture_translation_invariant (sampleHand 0.25 0.3 0.3) []
              0.1 0.2) as [(hs & hs' & H1 & H2 & H3 & _) _].
  - rewrite sampleHand_length. lia.
  - exists hs, hs'. auto.
Defined.

(** X13. The two classifiers agree except in the band between their open
    thresholds: for a full hand the mode that [processGestures] moves to is
    the one that the gesture of [detect] names, unless the pinch distance
    is at least 0.05 and the spread lies in [(0.35, 0.4]]; there [detect]
    reports OPEN_PALM and [processGestures] leaves the mode as it is. *)
Theorem X13_classifiers_agree :
  forall (lm : list Landmark) (rest : list (list Landmark))
         (ps : list App.Particle) (S : App.STATE) (g : Js.Rng),
    (21 <= List.length lm)%nat -> Js.wf g ->
    exists hs : HandState,
      HandTracker.detect (mkResult (Some (lm :: rest))) = Js.Normal hs
      /\ let S' :=
           fst (fst (App.processGestures (mkResult (Some (lm :: rest)))
                       ps S g)) in
         (pinchDistance lm < 0.05 \/ spread lm <= 0.35 \/ 0.4 < spread lm ->
          App.mode S' = spec_transition (gesture hs) (App.mode S))
         /\ (0.05 <= pinchDistance lm -> 0.35 < spread lm <= 0.4 ->
             gesture hs = OPEN_PALM /\ App.mode S' = App.mode S).
Proof.
  intros lm rest ps S g H Hg.
  eexists. split; [apply (detect_full lm rest H) |].
  intros S'.
  destruct (processGestures_step lm rest ps S g H Hg) as (_ & _ & Hm).
  fold S' in Hm. rewrite Hm. cbn [gesture]. unfold classify.
  split.
  - intros [Hc | [Hc | Hc]]; thresholds.
  - intros Hp Hs. split; thresholds.
Qed.

Lemma X13_classifiers_agree_witness :
  exists hs : HandState,
    HandTracker.detect (oneHand (sampleHand 0.5 0.38 0.2)) = Js.Normal hs
    /\ gesture hs = OPEN_PALM
    /\ App.mode
         (fst (fst (App.processGestures (oneHand (sampleHand 0.5 0.38 0.2))
                      [] App.STATE_init (Js.const 0))))
       = App.TREE.
Proof.
  destruct (X13_classifiers_agree (sampleHand 0.5 0.38 0.2) [] []
              App.STATE_init (Js.const 0)) as (hs & Hd & _ & H).
  - rewrite sampleHand_length. lia.
  - apply wf_const. lra.
  - exists hs. split; [exact Hd |].
    apply H.
    + rewrite sampleHand_pinch; lra.
    + rewrite sampleHand_spread; lra.
Defined.

(* ================================================================== *)
(** * The registry of the stand-alone scene *)
(* ================================================================== *)

Lemma newParticle_spec (mesh : App.Mesh) (type : App.ParticleKind)
  (isDust : bool) (g : Js.Rng) :
  Js.wf g ->
  let r := App.newParticle mesh type isDust g in
  App.mesh (fst r) = mesh /\ App.type (fst r) = type
  /\ App.isDust (fst r) = isDust
  /\ App.baseScale (fst r) = Vector3.x (App.scale mesh)
  /\ Js.wf (snd r).
Proof.
  intros Hg r. unfold r. rewrite newParticle_eq. cbn.
  repeat split; try apply Hg.
Qed.

Lemma ornamentKind_cases (rand : R) :
  Scene.ornamentKind rand <> App.PHOTO /\ Scene.ornamentKind rand <> App.DUST.
Proof.
  unfold Scene.ornamentKind.
  repeat match goal with
         | |- context [Rlt_dec ?a ?b] => destruct (Rlt_dec a b)
         end; split; discriminate.
Qed.

#[local] Opaque App.newParticle.

Lemma createParticles_from_spec (n : nat) :
  forall (nextId : nat) (g : Js.Rng), Js.wf g ->
    let r := Scene.createParticles_from n nextId g in
    map (fun p => App.id (App.mesh p)) (fst r) = seq nextId n
    /\ Forall (fun p => particleOk p /\ App.type p <> App.PHOTO) (fst r)
    /\ Js.wf (snd r).
Proof.
  induction n as [| n IH]; intros nextId g Hg.
  - cbn. split; [reflexivity | split; [constructor | exact Hg]].
  - cbn [Scene.createParticles_from seq]. unfold Js.rbind. cbn [Js.random].
    set (g5 := fun k => g (S (S (S (S (S k)))))).
    assert (Hg5 : Js.wf g5) by (intros k; apply Hg).
    set (s := 0.4 + g 1%nat * 0.5).
    set (m := App.mkMesh nextId (Vector3.new 0 0 0)
                (Vector3.new (g 2%nat * 6) (g 3%nat * 6) (g 4%nat * 6))
                (Vector3.new s s s)).
    destruct (newParticle_spec m (Scene.ornamentKind (g 0%nat)) false g5 Hg5)
      as (Hm & Ht & Hd & Hb & Hw).
    destruct (App.newParticle m (Scene.ornamentKind (g 0%nat)) false g5)
      as [p g'].
    cbn [fst snd] in Hm, Ht, Hd, Hb, Hw.
    destruct (IH (S nextId) g' Hw) as (I1 & I2 & I3).
    destruct (Scene.createParticles_from n (S nextId) g') as [rest g''].
    cbn [fst snd Js.ret map] in *.
    split; [now rewrite Hm, I1 |]. split; [| exact I3].
    constructor; [| exact I2].
    destruct (ornamentKind_cases (g 0%nat)) as [Np Nd].
    assert (Hu := Hg 1%nat).
    split; [| now rewrite Ht].
    unfold particleOk. rewrite Hm, Ht, Hd, Hb. unfold m.
    cbn [App.scale Vector3.x].
    split; [split; [discriminate | intros E; contradiction] |].
    split; [reflexivity |]. split; [reflexivity |].
    destruct (Scene.ornamentKind (g 0%nat)); try contradiction;
      unfold s; lra.
Qed.

Lemma createDust_from_spec (n : nat) :
  forall (nextId : nat) (g : Js.Rng), Js.wf g ->
    let r := Scene.createDust_from n nextId g in
    map (fun p => App.id (App.mesh p)) (fst r) = seq nextId n
    /\ Forall (fun p => particleOk p /\ App.type p <> App.PHOTO) (fst r)
    /\ Js.wf (snd r).
Proof.
  induction n as [| n IH]; intros nextId g Hg.
  - cbn. split; [reflexivity | split; [constructor | exact Hg]].
  - cbn [Scene.createDust_from seq]. unfold Js.rbind. cbn [Js.random].
    set (g1 := fun k => g (S k)).
    assert (Hg1 : Js.wf g1) by (intros k; apply Hg).
    set (s := 0.5 + g 0%nat).
    set (m := App.mkMesh nextId (Vector3.new 0 0 0) (Vector3.new 0 0 0)
                (Vector3.new s s s)).
    destruct (newParticle_spec m App.DUST true g1 Hg1)
      as (Hm & Ht & Hd & Hb & Hw).
    destruct (App.newParticle m App.DUST true g1) as [p g'].
    cbn [fst snd] in Hm, Ht, Hd, Hb, Hw.
    destruct (IH (S nextId) g' Hw) as (I1 & I2 & I3).
    destruct (Scene.createDust_from n (S nextId) g') as [rest g''].
    cbn [fst snd Js.ret map] in *.
    split; [now rewrite Hm, I1 |]. split; [| exact I3].
    constructor; [| exact I2].
    assert (Hu := Hg 0%nat).
    split; [| rewrite Ht; discriminate].
    unfold particleOk. rewrite Hm, Ht, Hd, Hb. unfold m.
    cbn [App.scale Vector3.x].
    split; [split; reflexivity |].
    split; [reflexivity |]. split; [reflexivity |]. unfold s. lra.
Qed.

Lemma addPhotoToScene_spec (nextId : nat) (g : Js.Rng) :
  Js.wf g ->
  let r := Scene.addPhotoToScene nextId g in
  App.id (App.mesh (fst (fst r))) = (nextId + 2)%nat
  /\ App.type (fst (fst r)) = App.PHOTO
  /\ particleOk (fst (fst r))
  /\ snd (fst r) = (nextId + 3)%nat
  /\ Js.wf (snd r).
Proof.
  intros Hg. unfold Scene.addPhotoToScene, Js.rbind.
  set (m := App.mkMesh (nextId + 2) (Vector3.new 0 0 0) (Vector3.new 0 0 0)
              (Vector3.new 0.8 0.8 0.8)).
  destruct (newParticle_spec m App.PHOTO false g Hg)
    as (Hm & Ht & Hd & Hb & Hw).
  destruct (App.newParticle m App.PHOTO false g) as [p g'].
  cbn [fst snd Js.ret] in *.
  split; [now rewrite Hm |]. split; [exact Ht |].
  split; [| split; [reflexivity | exact Hw]].
  unfold particleOk. rewrite Hm, Ht, Hd, Hb. unfold m.
    cbn [App.scale Vector3.x].
  split; [split; discriminate |]. repeat split.
Qed.

#[local] Transparent App.newParticle.

Lemma photosOf_none (ps : list App.Particle) :
  Forall (fun p => particleOk p /\ App.type p <> App.PHOTO) ps ->
  App.photosOf ps = [].
Proof.
  induction 1 as [| p ps [_ Hp] _ IH]; [reflexivity |].
  unfold App.photosOf in *. cbn [filter].
  destruct (App.ParticleKind_eq_dec (App.type p) App.PHOTO); [contradiction |].
  exact IH.
Qed.

Lemma photosOf_app (a b : list App.Particle) :
  App.photosOf (a ++ b) = App.photosOf a ++ App.photosOf b.
Proof. apply filter_app. Qed.

Lemma init_spec (starObjects nextId : nat) (g : Js.Rng) :
  Js.wf g ->
  let ps := fst (fst (Scene.init starObjects nextId g)) in
  exists (a b : list App.Particle) (photo : App.Particle),
    ps = a ++ b ++ [photo]
    /\ map (fun p => App.id (App.mesh p)) a = seq nextId App.CONFIG.count
    /\ map (fun p => App.id (App.mesh p)) b
       = seq (nextId + App.CONFIG.count + starObjects) App.CONFIG.dustCount
    /\ App.id (App.mesh photo)
       = (nextId + App.CONFIG.count + starObjects + App.CONFIG.dustCount + 2)%nat
    /\ App.type photo = App.PHOTO
    /\ Forall (fun p => particleOk p /\ App.type p <> App.PHOTO) (a ++ b)
    /\ particleOk photo.
Proof.
  intros Hg. unfold Scene.init, Scene.createParticles, Scene.createDust,
    Js.rbind.
  destruct (createParticles_from_spec App.CONFIG.count nextId g Hg)
    as (A1 & A2 & A3).
  destruct (Scene.createParticles_from App.CONFIG.count nextId g) as [a g1].
  cbn [fst snd Js.ret] in *.
  destruct (createDust_from_spec App.CONFIG.dustCount
              (nextId + App.CONFIG.count + starObjects) g1 A3) as (B1 & B2 & B3).
  destruct (Scene.createDust_from App.CONFIG.dustCount
              (nextId + App.CONFIG.count + starObjects) g1) as [b g2].
  cbn [fst snd Js.ret] in *.
  destruct (addPhotoToScene_spec
              (nextId + App.CONFIG.count + starObjects + App.CONFIG.dustCount) g2 B3)
    as (C1 & C2 & C3 & _ & _).
  destruct (Scene.addPhotoToScene
              (nextId + App.CONFIG.count + starObjects + App.CONFIG.dustCount) g2)
    as [[photo n3] g3].
  cbn [fst snd Js.ret] in *.
  exists a, b, photo. split; [reflexivity |].
  split; [exact A1 |]. split; [exact B1 |].
  split; [rewrite C1; lia |]. split; [exact C2 |].
  split; [| exact C3].
  apply Forall_app. split; assumption.
Qed.

Lemma filter_unique {A : Type} (f : A -> nat) (l : list A) (x : A) :
  NoDup (map f l) -> In x l ->
  filter (fun y => Nat.eqb (f y) (f x)) l = [x].
Proof.
  induction l as [| a l IH]; intros Hnd Hin; [contradiction |].
  cbn [map] in Hnd. inversion Hnd as [| ? ? Hna Hnd']; subst.
  cbn [filter]. destruct Hin as [-> | Hin].
  - rewrite Nat.eqb_refl. f_equal.
    clear IH Hnd Hnd'. induction l as [| b l IHl]; [reflexivity |].
    cbn [filter map] in *.
    destruct (Nat.eqb_spec (f b) (f x)) as [E | _].
    + exfalso. apply Hna. left. exact E.
    + apply IHl. intros H. apply Hna. right. exact H.
  - destruct (Nat.eqb_spec (f a) (f x)) as [E | _].
    + exfalso. apply Hna. rewrite E. now apply in_map.
    + now apply IH.
Qed.

Lemma init_ids_nodup (starObjects nextId : nat) (g : Js.Rng) :
  Js.wf g ->
  NoDup (map (fun p => App.id (App.mesh p)) (fst (fst (Scene.init starObjects nextId g)))).
Proof.
  intros Hg.
  destruct (init_spec starObjects nextId g Hg)
    as (a & b & photo & E & Ia & Ib & Ip & _ & _ & _).
  cbv zeta in E. rewrite E, !map_app, Ia, Ib. cbn [map]. rewrite Ip.
  apply NoDup_app; [apply seq_NoDup | |].
  - apply NoDup_app; [apply seq_NoDup | repeat constructor; intros [] |].
    intros i Hi [<- | []]. apply in_seq in Hi. lia.
  - intros i Hi Hj. apply in_seq in Hi. apply in_app_or in Hj.
    destruct Hj as [Hj | [<- | []]]; [apply in_seq in Hj |]; lia.
Qed.

Lemma init_photos (starObjects nextId : nat) (g : Js.Rng) :
  Js.wf g ->
  let ps := fst (fst (Scene.init starObjects nextId g)) in
  exists photo,
    App.photosOf ps = [photo] /\ last ps photo = photo
    /\ App.id (App.mesh photo)
       = (nextId + App.CONFIG.count + starObjects + App.CONFIG.dustCount + 2)%nat.
Proof.
  intros Hg ps.
  destruct (init_spec starObjects nextId g Hg)
    as (a & b & photo & E & _ & _ & Ip & Tp & Hab & _).
  fold ps in E. rewrite E.
  exists photo. split; [| split; [| exact Ip]].
  - rewrite app_assoc, photosOf_app, (photosOf_none _ Hab).
    unfold App.photosOf. cbn [filter app]. rewrite Tp.
    destruct (App.ParticleKind_eq_dec App.PHOTO App.PHOTO); congruence.
  - rewrite app_assoc. apply last_last.
Qed.

(** X14. After [createParticles(); createDust(); createDefaultPhotos()]
    the registry holds [count + dustCount + 1] particles whose meshes have
    pairwise distinct identifiers; the dust flag is set exactly for the
    kind DUST; every base scale is the scale of the mesh and is positive
    (ornaments in [[0.4, 0.9)], dust in [[0.5, 1.5)], the photo 0.8); and
    exactly one particle is a PHOTO, the last one. *)
Theorem X14_registry_after_init :
  forall (starObjects nextId : nat) (g : Js.Rng), Js.wf g ->
    let ps := fst (fst (Scene.init starObjects nextId g)) in
    List.length ps = (App.CONFIG.count + App.CONFIG.dustCount + 1)%nat
    /\ NoDup (map (fun p => App.id (App.mesh p)) ps)
    /\ Forall (fun p => particleOk p /\ 0 < App.baseScale p) ps
    /\ exists photo,
         App.photosOf ps = [photo] /\ last ps photo = photo
         /\ App.id (App.mesh photo)
            = (nextId + App.CONFIG.count + starObjects + App.CONFIG.dustCount + 2)%nat.
Proof.
  intros starObjects nextId g Hg ps.
  assert (Hnd := init_ids_nodup starObjects nextId g Hg). fold ps in Hnd.
  assert (Hph := init_photos starObjects nextId g Hg). fold ps in Hph.
  destruct (init_spec starObjects nextId g Hg)
    as (a & b & photo & E & Ia & Ib & _ & _ & Hab & Hp).
  fold ps in E. clearbody ps.
  split; [| split; [exact Hnd | split; [| exact Hph]]].
  - assert (La : List.length a = App.CONFIG.count).
    { rewrite <- (length_map (fun p => App.id (App.mesh p))), Ia.
      apply length_seq. }
    assert (Lb : List.length b = App.CONFIG.dustCount).
    { rewrite <- (length_map (fun p => App.id (App.mesh p))), Ib.
      apply length_seq. }
    rewrite E, !length_app. cbn [List.length]. lia.
  - assert (Hall : Forall particleOk ps).
    { rewrite E, app_assoc. apply Forall_app. split.
      - apply Forall_impl with (2 := Hab). intros p Hq. apply Hq.
      - constructor; [exact Hp | constructor]. }
    apply Forall_impl with (2 := Hall). intros p Hq. split; [exact Hq |].
    destruct Hq as (_ & _ & _ & Hr). destruct (App.type p); lra.
Qed.

Lemma X14_registry_after_init_witness :
  List.length (fst (fst (Scene.init 3 10 (Js.const (1 / 2)))))
  = (App.CONFIG.count + App.CONFIG.dustCount + 1)%nat.
Proof.
  destruct (X14_registry_after_init 3 10 (Js.const (1 / 2))) as [H _].
  - apply wf_const. lra.
  - exact H.
Defined.

(** X15. In the stand-alone scene a PINCH never finds the registry
    without a photo: on the registry that initialisation leaves, a PINCH
    outside FOCUS mode always sets FOCUS and locks the default photo, and
    exactly one particle of the registry, that photo, is then the one that
    the animator treats as the focus target. *)
Theorem X15_pinch_locks_default_photo :
  forall (starObjects nextId : nat) (g g' : Js.Rng) (lm : list Landmark)
         (rest : list (list Landmark)) (S : App.STATE),
    Js.wf g -> Js.wf g' -> (21 <= List.length lm)%nat ->
    classify 0.05 0.25 0.4 lm = PINCH -> App.mode S <> App.FOCUS ->
    let ps := fst (fst (Scene.init starObjects nextId g)) in
    let S' :=
      fst (fst (App.processGestures (mkResult (Some (lm :: rest))) ps S g'))
    in
    App.mode S' = App.FOCUS
    /\ App.focusTarget S'
       = Some (nextId + App.CONFIG.count + starObjects + App.CONFIG.dustCount + 2)%nat
    /\ exists photo,
         App.type photo = App.PHOTO
         /\ filter (fun p => App.isMesh (App.mesh p) (App.focusTarget S')) ps
            = [photo].
Proof.
  intros starObjects nextId g g' lm rest S Hg Hg' H Hc Hm ps S'.
  assert (Hnd := init_ids_nodup starObjects nextId g Hg).
  destruct (init_photos starObjects nextId g Hg) as (photo & Hph & _ & Hid).
  fold ps in Hnd, Hph.
  destruct (processGestures_full lm rest ps S g' H Hg') as (_ & _ & Hs).
  fold S' in Hs. clearbody S'. clearbody ps. rewrite Hc, Hph in Hs.
  destruct (App.Mode_eq_dec (App.mode S) App.FOCUS) as [Hf | _];
    [contradiction |].
  destruct Hs as (q & Hin & Ht & Hs).
  assert (Hq : In q (App.photosOf ps)).
  { apply photosOf_in. split; assumption. }
  rewrite Hph in Hq. destruct Hq as [<- | []].
  rewrite Hs. cbn [App.mode App.focusTarget App.set_focusTarget App.set_mode].
  split; [reflexivity |]. split; [now rewrite Hid |].
  exists photo. split; [exact Ht |].
  apply (filter_unique (fun p => App.id (App.mesh p)) ps photo Hnd Hin).
Qed.

Lemma X15_pinch_locks_default_photo_witness :
  App.mode
    (fst (fst (App.processGestures (oneHand (sampleHand 0.5 0 0))
                 (fst (fst (Scene.init 3 10 (Js.const (1 / 2)))))
                 App.STATE_init (Js.const 0))))
  = App.FOCUS.
Proof.
  destruct (X15_pinch_locks_default_photo 3 10 (Js.const (1 / 2))
              (Js.const 0)
              (sampleHand 0.5 0 0) [] App.STATE_init) as [H _].
  - apply wf_const. lra.
  - apply wf_const. lra.
  - rewrite sampleHand_length. lia.
  - rewrite sampleHand_classify by lra. thresholds.
  - discriminate.
  - exact H.
Defined.

(** X16. A round of [animate] changes neither the mode, the focus target
    nor the hand, and keeps every particle with its mesh identity and its
    targets, in order. The tilt of the group stays within a quarter of pi:
    if it is within that bound, the stored hand position is within 1 and
    [0 <= dt <= 1/3], it is within the bound after the round, in every
    mode. *)
Theorem X16_animate :
  forall (Matrix4 : Type)
         (applyInverse : Matrix4 -> Vector3.t -> Vector3.t)
         (lookAt : App.Mesh -> Matrix4 -> Vector3.t -> Vector3.t)
         (dt elapsedTime : R) (cam : Vector3.t) (mw : Matrix4)
         (S : App.STATE) (ps : list App.Particle),
    let r := Scene.animate Matrix4 applyInverse lookAt dt elapsedTime cam mw
               S ps in
    App.mode (fst r) = App.mode S
    /\ App.focusTarget (fst r) = App.focusTarget S
    /\ App.hand (fst r) = App.hand S
    /\ map (fun p => (App.id (App.mesh p), App.type p, App.posTree p,
                      App.posScatter p)) (snd r)
       = map (fun p => (App.id (App.mesh p), App.type p, App.posTree p,
                        App.posScatter p)) ps
    /\ (0 <= dt <= 1 / 3 -> Rabs (App.hand_y (App.hand S)) <= 1 ->
        Rabs (App.rotation_x S) <= PI / 4 ->
        Rabs (App.rotation_x (fst r)) <= PI / 4).
Proof.
  intros Matrix4 applyInverse lookAt dt elapsedTime cam mw S ps r.
  unfold r, Scene.animate. cbn [fst snd].
  assert (E : App.mode (Scene.animateRotation dt S) = App.mode S
              /\ App.focusTarget (Scene.animateRotation dt S)
                 = App.focusTarget S
              /\ App.hand (Scene.animateRotation dt S) = App.hand S).
  { unfold Scene.animateRotation.
    destruct (App.mode S), (App.detected (App.hand S)); now cbn. }
  destruct E as (E1 & E2 & E3).
  split; [exact E1 |]. split; [exact E2 |]. split; [exact E3 |].
  split.
  - rewrite map_map. apply map_ext. intros p. reflexivity.
  - intros Hdt Hh Hr. assert (HPI := PI_RGT_0).
    apply Rabs_le. apply Rabs_between in Hr. apply Rabs_between in Hh.
    set (T := App.hand_y (App.hand S) * PI * 0.25).
    assert (HT : - (PI / 4) <= T <= PI / 4) by (unfold T; nra).
    set (a := 3.0 * dt). assert (Ha : 0 <= a <= 1) by (unfold a; lra).
    assert (Hs : - (PI / 4)
                 <= App.rotation_x S + (T - App.rotation_x S) * a <= PI / 4).
    { replace (App.rotation_x S + (T - App.rotation_x S) * a)
        with ((1 - a) * App.rotation_x S + a * T) by ring.
      split; nra. }
    unfold Scene.animateRotation.
    destruct (App.mode S), (App.detected (App.hand S));
      cbn [App.rotation_x]; fold T;
      rewrite ?(Rmult_assoc (T - App.rotation_x S) 3.0 dt); fold a;
      try exact Hs; try exact Hr; nra.
Qed.

Lemma X16_animate_witness :
  Rabs (App.rotation_x
          (fst (Scene.animate unit idInverse idLookAt (1 / 60) 0
                  (Vector3.new 0 0 18) tt App.STATE_init [sampleParticle])))
  <= PI / 4.
Proof.
  destruct (X16_animate unit idInverse idLookAt (1 / 60) 0
              (Vector3.new 0 0 18) tt App.STATE_init [sampleParticle])
    as (_ & _ & _ & _ & H).
  assert (HPI := PI_RGT_0).
  apply H.
  - lra.
  - cbn. rewrite Rabs_R0. lra.
  - cbn. rewrite Rabs_R0. lra.
Defined.

(* ================================================================== *)
(** * Further properties of the components of [TreeScene] *)
(* ================================================================== *)

Section PhotoPlaneFacts.

Variable lookAt : Vector3.t -> Vector3.t -> Vector3.t.

Lemma photo_frames (n : nat) (photo : PhotoData) (mode : AppMode.t)
  (isFocused : bool) (cam : Vector3.t) (delta : R)
  (mesh : TreeScene.Transform) :
  let tp := PhotoPlane.targetPos photo mode isFocused in
  let ts := PhotoPlane.targetScale mode isFocused in
  let m := PhotoPlane.frames lookAt n photo mode isFocused cam delta mesh in
  Vector3.distanceTo (TreeScene.position m) tp
  = Rabs (1 - delta * 3) ^ n
    * Vector3.distanceTo (TreeScene.position mesh) tp
  /\ Vector3.x (TreeScene.scale m) - ts
     = (1 - delta * 3) ^ n * (Vector3.x (TreeScene.scale mesh) - ts).
Proof.
  intros tp ts. induction n as [| n [IHd IHs]].
  - cbn. split; ring.
  - cbn [PhotoPlane.frames pow]. cbv zeta in IHd, IHs.
    set (q := PhotoPlane.frames lookAt n photo mode isFocused cam delta mesh)
      in *.
    unfold PhotoPlane.frame. cbn [TreeScene.position TreeScene.scale Vector3.x].
    fold tp ts. split.
    + rewrite lerp_distance, IHd. ring.
    + unfold MathUtils.lerp.
      transitivity ((1 - delta * 3) * (Vector3.x (TreeScene.scale q) - ts));
        [ring | rewrite IHs; ring].
Qed.

End PhotoPlaneFacts.

(** X17. A photo plane eases to the target of its mode: with
    [0 < 3*delta < 2] no frame increases the distance to the target
    position, and position and scale come arbitrarily close to the target
    position and the target scale (6 when zoomed, 1.5 in the tree, 2
    otherwise); the scale is uniform after every frame. While another
    photo is zoomed, a photo is animated exactly as in SCATTER mode. *)
Theorem X17_photo_plane_easing :
  forall (lookAt : Vector3.t -> Vector3.t -> Vector3.t) (photo : PhotoData)
         (mode : AppMode.t) (isFocused : bool) (cam : Vector3.t) (delta : R)
         (mesh : TreeScene.Transform),
    0 < delta * 3 < 2 ->
    let tp := PhotoPlane.targetPos photo mode isFocused in
    let ts := PhotoPlane.targetScale mode isFocused in
    let run (n : nat) :=
      PhotoPlane.frames lookAt n photo mode isFocused cam delta mesh in
    PhotoPlane.frame lookAt photo AppMode.ZOOM false cam delta mesh
    = PhotoPlane.frame lookAt photo AppMode.SCATTER isFocused cam delta mesh
    /\ (forall n,
          Vector3.distanceTo (TreeScene.position (run (S n))) tp
          <= Vector3.distanceTo (TreeScene.position (run n)) tp
          /\ Vector3.x (TreeScene.scale (run (S n)))
             = Vector3.y (TreeScene.scale (run (S n)))
          /\ Vector3.y (TreeScene.scale (run (S n)))
             = Vector3.z (TreeScene.scale (run (S n))))
    /\ (forall eps, 0 < eps ->
          exists N, forall n, (N <= n)%nat ->
            Vector3.distanceTo (TreeScene.position (run n)) tp < eps
            /\ Rabs (Vector3.x (TreeScene.scale (run n)) - ts) < eps).
Proof.
  intros lookAt photo mode isFocused cam delta mesh Hd tp ts run.
  set (k := Rabs (1 - delta * 3)).
  assert (Hk : 0 <= k < 1) by now apply contraction_factor.
  set (d0 := Vector3.distanceTo (TreeScene.position mesh) tp).
  assert (Hd0 : 0 <= d0) by apply distance_nonneg.
  split; [reflexivity |]. split.
  - intros n. split; [| split; reflexivity].
    destruct (photo_frames lookAt (S n) photo mode isFocused cam delta mesh)
      as [E1 _].
    destruct (photo_frames lookAt n photo mode isFocused cam delta mesh)
      as [E0 _].
    fold tp in E0, E1. fold (run (S n)) in E1. fold (run n) in E0.
    rewrite E1, E0. fold k d0. cbn [pow].
    assert (0 <= k ^ n) by (apply pow_le, Hk).
    assert (0 <= k ^ n * d0) by nra.
    replace (k * k ^ n * d0) with (k * (k ^ n * d0)) by ring. nra.
  - intros eps He.
    set (s0 := Rabs (Vector3.x (TreeScene.scale mesh) - ts)).
    assert (Hs0 : 0 <= s0) by apply Rabs_pos.
    destruct (geometric_vanishes k (d0 + s0) eps Hk) as [N HN];
      [lra | exact He |].
    exists N. intros n Hn. specialize (HN n Hn).
    destruct (photo_frames lookAt n photo mode isFocused cam delta mesh)
      as [E1 E2].
    fold tp in E1. fold ts in E2. fold (run n) in E1, E2.
    rewrite E1, E2, Rabs_mult, <- RPow_abs. fold k d0 s0.
    assert (0 <= k ^ n) by (apply pow_le, Hk).
    split; nra.
Qed.

Lemma X17_photo_plane_easing_witness :
  PhotoPlane.frame (fun p c => c)
    (mkPhotoData (PhotoId 0) "a" 1 (Vector3.new 0 0 0) (Vector3.new 1 1 1))
    AppMode.ZOOM false (Vector3.new 0 0 20) (1 / 60)
    (TreeScene.mkTransform (Vector3.new 0 0 0) (Vector3.new 0 0 0)
       (Vector3.new 1 1 1))
  = PhotoPlane.frame (fun p c => c)
      (mkPhotoData (PhotoId 0) "a" 1 (Vector3.new 0 0 0) (Vector3.new 1 1 1))
      AppMode.SCATTER true (Vector3.new 0 0 20) (1 / 60)
      (TreeScene.mkTransform (Vector3.new 0 0 0) (Vector3.new 0 0 0)
         (Vector3.new 1 1 1)).
Proof.
  destruct (X17_photo_plane_easing (fun p c => c)
              (mkPhotoData (PhotoId 0) "a" 1 (Vector3.new 0 0 0)
                 (Vector3.new 1 1 1))
              AppMode.SCATTER true (Vector3.new 0 0 20) (1 / 60)
              (TreeScene.mkTransform (Vector3.new 0 0 0) (Vector3.new 0 0 0)
                 (Vector3.new 1 1 1))) as [H _].
  - lra.
  - exact H.
Defined.

(** X18. The camera of [CameraController]: in TREE mode it sits on the
    circle of radius 20 around the vertical axis and keeps its height; in
    ZOOM mode, and in SCATTER mode when no hand is present or the gesture
    is PINCH, it does not move; in SCATTER mode with a steering hand whose
    pointer is within 1 and [0 <= delta <= 1] it stays within 10 to the
    side and 5 in height and keeps its depth. *)
Theorem X18_camera_controller :
  forall (handState : HandState) (mode : AppMode.t)
         (elapsedTime delta : R) (cam : Vector3.t),
    let cam' := CameraController.frame handState mode elapsedTime delta cam in
    (mode = AppMode.TREE ->
     Vector3.radius cam' = 20 /\ Vector3.y cam' = Vector3.y cam)
    /\ (mode = AppMode.ZOOM -> cam' = cam)
    /\ (mode = AppMode.SCATTER ->
        isPresent handState = false \/ gesture handState = PINCH ->
        cam' = cam)
    /\ (mode = AppMode.SCATTER -> isPresent handState = true ->
        gesture handState <> PINCH -> 0 <= delta <= 1 ->
        Rabs (px (position handState)) <= 1 ->
        Rabs (py (position handState)) <= 1 ->
        Rabs (Vector3.x cam) <= 10 -> Rabs (Vector3.y cam) <= 5 ->
        Rabs (Vector3.x cam') <= 10 /\ Rabs (Vector3.y cam') <= 5
        /\ Vector3.z cam' = Vector3.z cam).
Proof.
  intros handState mode elapsedTime delta cam cam'. unfold cam'.
  split; [| split; [| split]].
  - intros ->. cbn [CameraController.frame]. split; [| reflexivity].
    unfold Vector3.radius. cbn [Vector3.x Vector3.z].
    replace (sin (elapsedTime * 0.2) * 20 * (sin (elapsedTime * 0.2) * 20)
             + cos (elapsedTime * 0.2) * 20 * (cos (elapsedTime * 0.2) * 20))
      with (Rsqr 20 * (Rsqr (sin (elapsedTime * 0.2))
                       + Rsqr (cos (elapsedTime * 0.2))))
      by (unfold Rsqr; ring).
    rewrite sin2_cos2, Rmult_1_r, sqrt_Rsqr_abs. apply Rabs_right. lra.
  - intros ->. reflexivity.
  - intros -> [H | H]; cbn [CameraController.frame]; rewrite H.
    + reflexivity.
    + cbn. now rewrite andb_false_r.
  - intros -> Hp Hg Hd Hx Hy Hcx Hcy. cbn [CameraController.frame].
    rewrite Hp.
    assert (Eg : CameraController.isPinch (gesture handState) = false).
    { destruct (gesture handState); [reflexivity .. | congruence]. }
    rewrite Eg. cbn [andb negb Vector3.x Vector3.y Vector3.z].
    unfold MathUtils.lerp.
    apply Rabs_between in Hx, Hy, Hcx, Hcy.
    split; [apply Rabs_le; nra |]. split; [apply Rabs_le; nra | reflexivity].
Qed.

Lemma X18_camera_controller_witness :
  Vector3.radius
    (CameraController.frame (mkHandState UNKNOWN (mkPoint2 0 0) false)
       AppMode.TREE 3 (1 / 60) (Vector3.new 0 0 20))
  = 20.
Proof.
  destruct (X18_camera_controller (mkHandState UNKNOWN (mkPoint2 0 0) false)
              AppMode.TREE 3 (1 / 60) (Vector3.new 0 0 20)) as [H _].
  destruct (H eq_refl) as [Hr _]. exact Hr.
Defined.

(** X19. The effect that picks the photo to zoom into settles after one
    run: when it completes with a value for [focusedPhotoId], running it
    again on that value, with the same mode and photos and whatever draw,
    returns the same value, so the re-run that the changed state triggers
    changes nothing more. *)
Theorem X19_focusEffect_settles :
  forall (mode : AppMode.t) (photos : list PhotoData) (f f' : option Id)
         (g g' : Js.Rng),
    fst (TreeScene.focusEffect mode photos f g) = Js.Normal f' ->
    fst (TreeScene.focusEffect mode photos f' g') = Js.Normal f'.
Proof.
  intros mode photos f f' g g'.
  destruct mode, photos as [| p0 photos], f as [i |];
    cbn [TreeScene.focusEffect Js.ret fst];
    try (intros E; injection E as <-; reflexivity).
  unfold Js.rbind, Js.random. cbn [fst Js.ret].
  destruct (Js.get _ ph_id) as [i | e]; cbn [Js.bind]; [| discriminate].
  intros E. injection E as <-. reflexivity.
Qed.

Lemma X19_focusEffect_settles_witness :
  fst (TreeScene.focusEffect AppMode.ZOOM samplePhotos None
         (Js.const (1 / 2)))
  = Js.Normal (Some (PhotoId 1))
  /\ fst (TreeScene.focusEffect AppMode.ZOOM samplePhotos
            (Some (PhotoId 1)) (Js.const 0))
     = Js.Normal (Some (PhotoId 1)).
Proof.
  assert (E : fst (TreeScene.focusEffect AppMode.ZOOM samplePhotos None
                     (Js.const (1 / 2)))
              = Js.Normal (Some (PhotoId 1))).
  { unfold TreeScene.focusEffect, samplePhotos, Js.rbind, Js.random,
      Js.const.
    rewrite (floor_unique _ 1%Z) by (cbn; lra).
    reflexivity. }
  split; [exact E |].
  exact (X19_focusEffect_settles AppMode.ZOOM samplePhotos None
           (Some (PhotoId 1)) (Js.const (1 / 2)) (Js.const 0) E).
Defined.

(** X20. A frame of an instanced particle sets the scale of the instance
    to the scale of the particle on all axes, and moves its position to
    the eased position, up to the float effect, which outside TREE mode
    shifts the height by at most 0.005 and leaves the horizontal
    coordinates alone. In TREE mode there is no float and the rotation is
    reset to zero, so an instance that has reached its tree target stays
    there. *)
Theorem X20_instance_frame :
  forall (mode : AppMode.t) (particle : ParticleData) (i : nat)
         (elapsedTime delta : R) (tempObj : TreeScene.Transform),
    let targetPos :=
      match mode with
      | AppMode.TREE => pd_initialPos particle
      | _ => pd_scatterPos particle
      end in
    let eased :=
      Vector3.lerp (TreeScene.position tempObj) targetPos (delta * 2.5) in
    let t' :=
      TreeScene.instanceFrame mode particle i elapsedTime delta tempObj in
    TreeScene.scale t'
    = Vector3.new (pd_scale particle) (pd_scale particle) (pd_scale particle)
    /\ Vector3.x (TreeScene.position t') = Vector3.x eased
    /\ Vector3.z (TreeScene.position t') = Vector3.z eased
    /\ Rabs (Vector3.y (TreeScene.position t') - Vector3.y eased) <= 0.005
    /\ (mode = AppMode.TREE ->
        TreeScene.position t' = eased
        /\ TreeScene.rotation t' = Vector3.new 0 0 0
        /\ (TreeScene.position tempObj = pd_initialPos particle ->
            TreeScene.position t' = pd_initialPos particle)).
Proof.
  intros mode particle i elapsedTime delta tempObj targetPos eased t'.
  assert (Hs := SIN_bound (elapsedTime * 0.5 + INR i)).
  unfold t', eased, targetPos, TreeScene.instanceFrame.
  destruct mode; cbn [TreeScene.scale TreeScene.position TreeScene.rotation
                        Vector3.x Vector3.y Vector3.z].
  - split; [reflexivity |]. split; [reflexivity |]. split; [reflexivity |].
    split; [rewrite Rminus_diag, Rabs_R0; lra |].
    intros _. split; [reflexivity |]. split; [reflexivity |].
    intros ->. destruct (pd_initialPos particle) as [a b c].
    unfold Vector3.lerp. cbn [Vector3.x Vector3.y Vector3.z].
    f_equal; ring.
  - split; [reflexivity |]. split; [reflexivity |]. split; [reflexivity |].
    split; [apply Rabs_le; lra | discriminate].
  - split; [reflexivity |]. split; [reflexivity |]. split; [reflexivity |].
    split; [apply Rabs_le; lra | discriminate].
Qed.

Lemma X20_instance_frame_witness :
  let particle :=
    mkParticleData (PId 0) (Vector3.new 1 2 3) (Vector3.new 4 5 6)
      COLORS.WHITE CANDY 0.15 in
  TreeScene.position
    (TreeScene.instanceFrame AppMode.TREE particle 0 0 (1 / 60)
       (TreeScene.mkTransform (Vector3.new 1 2 3) (Vector3.new 0 0 0)
          (Vector3.new 1 1 1)))
  = Vector3.new 1 2 3.
Proof.
  intros particle.
  destruct (X20_instance_frame AppMode.TREE particle 0 0 (1 / 60)
              (TreeScene.mkTransform (Vector3.new 1 2 3) (Vector3.new 0 0 0)
                 (Vector3.new 1 1 1))) as (_ & _ & _ & _ & H).
  destruct (H eq_refl) as (_ & _ & Hfix). apply Hfix. reflexivity.
Defined.

Lemma instance_frames (n : nat) (particle : ParticleData) (i : nat)
  (elapsedTime : nat -> R) (delta : R) (tempObj : TreeScene.Transform) :
  0 < delta * 2.5 < 2 ->
  let t := pd_scatterPos particle in
  let k := Rabs (1 - delta * 2.5) in
  let p (m : nat) :=
    TreeScene.position
      (InstancedGroup.frames m AppMode.SCATTER particle i elapsedTime delta
         tempObj) in
  Vector3.x (p n) - Vector3.x t
  = (1 - delta * 2.5) ^ n * (Vector3.x (p 0%nat) - Vector3.x t)
  /\ Vector3.z (p n) - Vector3.z t
     = (1 - delta * 2.5) ^ n * (Vector3.z (p 0%nat) - Vector3.z t)
  /\ (1 - k) * Rabs (Vector3.y (p n) - Vector3.y t)
     <= (1 - k) * k ^ n * Rabs (Vector3.y (p 0%nat) - Vector3.y t)
        + 0.005 * (1 - k ^ n).
Proof.
  intros Hd t k p.
  assert (Hk : 0 <= k < 1) by now apply contraction_factor.
  induction n as [| n (Ix & Iy & Iz)].
  - cbn [pow]. split; [ring |]. split; [ring |]. lra.
  - assert (Hpow : 0 <= k ^ n) by (apply pow_le, Hk).
    assert (Hs := SIN_bound (elapsedTime n * 0.5 + INR i)).
    set (q := InstancedGroup.frames n AppMode.SCATTER particle i elapsedTime
                delta tempObj).
    assert (Ep : p (S n)
                 = Vector3.new
                     (Vector3.x (TreeScene.position q)
                      + (Vector3.x t - Vector3.x (TreeScene.position q))
                        * (delta * 2.5))
                     (Vector3.y (TreeScene.position q)
                      + (Vector3.y t - Vector3.y (TreeScene.position q))
                        * (delta * 2.5)
                      + sin (elapsedTime n * 0.5 + INR i) * 0.005)
                     (Vector3.z (TreeScene.position q)
                      + (Vector3.z t - Vector3.z (TreeScene.position q))
                        * (delta * 2.5))) by reflexivity.
    assert (En : p n = TreeScene.position q) by reflexivity.
    rewrite En in Ix, Iy, Iz. clear En.
    rewrite Ep. cbn [Vector3.x Vector3.y Vector3.z pow].
    set (P := TreeScene.position q) in *.
    split; [| split].
    + transitivity ((1 - delta * 2.5) * (Vector3.x P - Vector3.x t));
        [ring | rewrite Ix; ring].
    + transitivity ((1 - delta * 2.5) * (Vector3.z P - Vector3.z t));
        [ring | rewrite Iy; ring].
    + set (y := Vector3.y P - Vector3.y t) in *.
      set (e := sin (elapsedTime n * 0.5 + INR i) * 0.005).
      replace (Vector3.y P + (Vector3.y t - Vector3.y P) * (delta * 2.5) + e
               - Vector3.y t)
        with ((1 - delta * 2.5) * y + e) by (unfold y; ring).
      assert (He : Rabs e <= 0.005) by (apply Rabs_le; unfold e; lra).
      assert (Ht := Rabs_triang ((1 - delta * 2.5) * y) e).
      rewrite Rabs_mult in Ht. fold k in Ht.
      set (y0 := Rabs (Vector3.y (p 0%nat) - Vector3.y t)) in *.
      assert (Hy := Rabs_pos y).
      assert (Hstep : (1 - k) * Rabs ((1 - delta * 2.5) * y + e)
                      <= k * ((1 - k) * Rabs y) + (1 - k) * 0.005) by nra.
      assert (Hih : k * ((1 - k) * Rabs y)
                    <= k * ((1 - k) * k ^ n * y0 + 0.005 * (1 - k ^ n)))
        by (apply Rmult_le_compat_l; lra).
      nra.
Qed.

Lemma frames_outside_tree (n : nat) (mode : AppMode.t)
  (particle : ParticleData) (i : nat) (elapsedTime : nat -> R) (delta : R)
  (tempObj : TreeScene.Transform) :
  mode <> AppMode.TREE ->
  InstancedGroup.frames n mode particle i elapsedTime delta tempObj
  = InstancedGroup.frames n AppMode.SCATTER particle i elapsedTime delta
      tempObj.
Proof.
  intros Hm. induction n as [| n IH]; [reflexivity |].
  cbn [InstancedGroup.frames]. rewrite IH.
  destruct mode; [contradiction | reflexivity | reflexivity].
Qed.

(** X9. In every mode outside TREE (SCATTER and ZOOM) an instanced particle
    settles into a hover around its scatter target: with
    [0 < 2.5*delta < 2] the horizontal offsets shrink by the factor
    [1 - 2.5*delta] per frame, and the offset in height, fed by the float
    effect, is bounded after [n] frames by [k^n] times the offset at the
    start plus [0.005 / (1 - k)], where [k = |1 - 2.5*delta|]. *)
Theorem X9_scatter_hover_bound :
  forall (mode : AppMode.t) (particle : ParticleData) (i : nat)
         (elapsedTime : nat -> R) (delta : R)
         (tempObj : TreeScene.Transform) (n : nat),
    mode <> AppMode.TREE ->
    0 < delta * 2.5 < 2 ->
    let t := pd_scatterPos particle in
    let k := Rabs (1 - delta * 2.5) in
    let p (m : nat) :=
      TreeScene.position
        (InstancedGroup.frames m mode particle i elapsedTime delta tempObj) in
    Vector3.x (p n) - Vector3.x t
    = (1 - delta * 2.5) ^ n * (Vector3.x (p 0%nat) - Vector3.x t)
    /\ Vector3.z (p n) - Vector3.z t
       = (1 - delta * 2.5) ^ n * (Vector3.z (p 0%nat) - Vector3.z t)
    /\ Vector3.x (p (S n)) - Vector3.x t
       = (1 - delta * 2.5) * (Vector3.x (p n) - Vector3.x t)
    /\ Vector3.z (p (S n)) - Vector3.z t
       = (1 - delta * 2.5) * (Vector3.z (p n) - Vector3.z t)
    /\ Rabs (Vector3.y (p n) - Vector3.y t)
       <= k ^ n * Rabs (Vector3.y (p 0%nat) - Vector3.y t)
          + 0.005 / (1 - k).
Proof.
  intros mode particle i elapsedTime delta tempObj n Hm Hd t k p.
  assert (Hk : 0 <= k < 1) by now apply contraction_factor.
  assert (Ep : forall m, p m
                = TreeScene.position
                    (InstancedGroup.frames m AppMode.SCATTER particle i
                       elapsedTime delta tempObj)).
  { intros m. unfold p. now rewrite frames_outside_tree. }
  destruct (instance_frames n particle i elapsedTime delta tempObj Hd)
    as (Hx & Hz & Hy).
  destruct (instance_frames (S n) particle i elapsedTime delta tempObj Hd)
    as (Hx' & Hz' & _).
  fold t k in Hx, Hz, Hy, Hx', Hz'.
  rewrite <- !Ep in Hx, Hz, Hy, Hx', Hz'.
  split; [exact Hx |]. split; [exact Hz |].
  split; [rewrite Hx', Hx; cbn [pow]; ring |].
  split; [rewrite Hz', Hz; cbn [pow]; ring |].
  assert (Hpow : 0 <= k ^ n) by (apply pow_le, Hk).
  set (a := Rabs (Vector3.y (p n) - Vector3.y t)) in *.
  set (b := Rabs (Vector3.y (p 0%nat) - Vector3.y t)) in *.
  assert (Hpos : 0 < 1 - k) by lra.
  apply (Rmult_le_reg_l (1 - k)); [exact Hpos |].
  replace ((1 - k) * (k ^ n * b + 0.005 / (1 - k)))
    with ((1 - k) * k ^ n * b + 0.005) by (field; lra).
  nra.
Qed.

Lemma X9_scatter_hover_bound_witness :
  let p (mode : AppMode.t) (m : nat) :=
    TreeScene.position
      (InstancedGroup.frames m mode sampleData 0 (fun _ => 0) (1 / 5)
         sampleTransform) in
  Vector3.x (p AppMode.ZOOM 2%nat) - 4
  = (1 - 1 / 5 * 2.5) ^ 2 * (Vector3.x (p AppMode.ZOOM 0%nat) - 4)
  /\ Vector3.x (p AppMode.SCATTER 2%nat) - 4
     = (1 - 1 / 5 * 2.5) ^ 2 * (Vector3.x (p AppMode.SCATTER 0%nat) - 4).
Proof.
  intros p. split.
  - destruct (X9_scatter_hover_bound AppMode.ZOOM sampleData 0 (fun _ => 0)
                (1 / 5) sampleTransform 2) as [H _].
    + discriminate.
    + lra.
    + exact H.
  - destruct (X9_scatter_hover_bound AppMode.SCATTER sampleData 0
                (fun _ => 0) (1 / 5) sampleTransform 2) as [H _].
    + discriminate.
    + lra.
    + exact H.
Defined.

Lemma filter_focused (photos : list PhotoData) (start : nat) (p : PhotoData) :
  map ph_id photos = map PhotoId (seq start (List.length photos)) ->
  In p photos ->
  filter (PhotoCloud.isFocused (Some (ph_id p))) photos = [p].
Proof.
  revert start. induction photos as [| a l IH]; intros start Hm Hin;
    [contradiction |].
  cbn [map List.length seq] in Hm. injection Hm as Ha Hl.
  assert (Hrest : forall q, In q l ->
            exists j, (start < j)%nat /\ ph_id q = PhotoId j).
  { intros q Hq. apply (in_map ph_id) in Hq. rewrite Hl in Hq.
    apply in_map_iff in Hq. destruct Hq as (j & Hj & Hs).
    apply in_seq in Hs. exists j. split; [lia | now symmetry]. }
  cbn [filter]. unfold PhotoCloud.isFocused at 1.
  destruct Hin as [-> | Hin].
  - rewrite Ha, Nat.eqb_refl. f_equal.
    clear IH Hl. induction l as [| b l IHl]; [reflexivity |].
    cbn [filter]. unfold PhotoCloud.isFocused at 1.
    destruct (Hrest b (or_introl eq_refl)) as (j & Hj & Eb).
    rewrite Eb.
    destruct (Nat.eqb_spec start j) as [E | _]; [lia |].
    apply IHl. intros q Hq. apply Hrest. now right.
  - destruct (Hrest p Hin) as (j & Hj & Ep).
    rewrite Ep, Ha.
    destruct (Nat.eqb_spec j start) as [E | _]; [lia |].
    rewrite <- Ep. now apply (IH (S start)).
Qed.

(** X21. Zooming picks exactly one photo: when the mode is ZOOM, no photo
    is held and [processPhotos] has made at least one photo, the effect of
    [TreeScene] completes with the identifier of one of them, and exactly
    one photo of the cloud, the one with that identifier, is then the
    focused one. *)
Theorem X21_exactly_one_photo_zooms :
  forall (fl : R -> R) (urls : list string) (g g' : Js.Rng),
    urls <> [] -> Js.wf g' ->
    let photos := fst (GeometryService.processPhotos fl urls g) in
    exists p,
      In p photos
      /\ fst (TreeScene.focusEffect AppMode.ZOOM photos None g')
         = Js.Normal (Some (ph_id p))
      /\ filter (PhotoCloud.isFocused (Some (ph_id p))) photos = [p].
Proof.
  intros fl urls g g' Hne Hg' photos.
  destruct (processPhotos_from_shape fl (List.length urls) urls 0 g)
    as (H1 & H2 & _ & _).
  fold (GeometryService.processPhotos fl urls g) in H1, H2.
  fold photos in H1, H2.
  assert (HL : List.length photos = List.length urls).
  { transitivity (List.length (map ph_url photos)).
    - symmetry. apply length_map.
    - now rewrite H1. }
  assert (Hp : photos <> []).
  { intros E. rewrite E in HL. destruct urls; [congruence | discriminate]. }
  destruct (focusEffect_select photos g' Hp Hg') as (p & Hin & Hsel).
  exists p. split; [exact Hin |]. split; [exact Hsel |].
  apply (filter_focused photos 0 p); [now rewrite HL | exact Hin].
Qed.

Lemma X21_exactly_one_photo_zooms_witness :
  let photos :=
    fst (GeometryService.processPhotos roundDown ["a"; "b"; "c"]%string
           (Js.const 0)) in
  exists p,
    In p photos
    /\ filter (PhotoCloud.isFocused (Some (ph_id p))) photos = [p].
Proof.
  intros photos.
  destruct (X21_exactly_one_photo_zooms roundDown ["a"; "b"; "c"]%string
              (Js.const 0)
              (Js.const (1 / 2))) as (p & Hin & _ & Hf).
  - discriminate.
  - apply wf_const. lra.
  - exists p. split; [exact Hin | exact Hf].
Defined.
